(** * cyclops-go: the ingestion front-end of [api/api.go]

    A shallow embedding of the request handler of the Sentry-compatible
    ingestion proxy (package [api]) together with the library functions
    it calls, and the properties of its admission decision, of its body
    handling and of its authentication parsing.

    Conventions.
    - Go [string] is [string], Go [[]byte] is [list byte].
    - Go [int], [int64] and [time.Duration] are [Z] with the 64-bit
      two's-complement wrap-around written out ([int64]); [uint64] wraps
      modulo [2^64] ([uint64]).
    - Go maps ([http.Header], [url.Values], [mux.Vars]) are [gmap].
    - A Go [(value, error)] result is a pair whose second component is an
      [option error]; [None] is Go's [nil].
    - Effects (cache store, delivery queue, statistics, log) are threaded
      through an explicit state record. *)

From Stdlib Require Import ZArith List String Ascii Lia Bool DecimalString DecimalPos.
From Stdlib.Strings Require Import Byte.
From stdpp Require Import base gmap strings list fin_maps relations.

Open Scope Z_scope.

(** ** Machine integers *)

Definition int64 (x : Z) : Z := (x + 2 ^ 63) mod 2 ^ 64 - 2 ^ 63.
Definition uint64 (x : Z) : Z := x mod 2 ^ 64.

Definition Z_of_byte (b : byte) : Z := Z.of_N (Byte.to_N b).

(** Go's conversion [byte(v)] of an unsigned integer: the low eight bits. *)
Definition byte_of_Z (v : Z) : byte :=
  match Byte.of_N (Z.to_N (v mod 256)) with
  | Some b => b
  | None => x00
  end.

(** ** Errors

    The Go [error] values that can reach the handler. *)

Inductive NumErrorKind := ErrSyntax | ErrRange.

Inductive error :=
| NumError (Func Num : string) (Err : NumErrorKind)      (* strconv *)
| CorruptInputError (offset : Z)                         (* encoding/base64 *)
| ReadError (msg : string)                               (* io, from r.Body *)
| HashError (msg : string)                               (* hash.HashForGrouping *)
| StoreUnavailable.                                      (* models.Cache *)

(** ** encoding/base64, [StdEncoding] *)

Module Base64.

Definition encodeStd : list byte :=
    list_byte_of_string
      "ABCDEFGHIJKLMNOPQRSTUVWXYZabcdefghijklmnopqrstuvwxyz0123456789+/".

Definition padChar : byte := "="%byte.

  (** [enc.encode[v]] *)
Definition encode (v : Z) : byte := nth (Z.to_nat v) encodeStd x00.

Fixpoint index_from (c : byte) (l : list byte) (i : Z) : Z :=
    match l with
    | [] => 255
    | x :: l' => if Byte.eqb x c then i else index_from c l' (i + 1)
    end.

  (** [enc.decodeMap[c]]: the position of [c] in the alphabet, [0xff] for
      a byte outside it. *)
Definition decodeMap (c : byte) : Z := index_from c encodeStd 0.

  (** [Encoding.Encode] / [EncodeToString]: three source bytes become four
      alphabet characters; a final block of one or two bytes is padded. *)
Fixpoint Encode (src : list byte) : list byte :=
    match src with
    | [] => []
    | [a] =>
        let val := Z.shiftl (Z_of_byte a) 16 in
        [encode (Z.land (Z.shiftr val 18) 63);
         encode (Z.land (Z.shiftr val 12) 63); padChar; padChar]
    | [a; b] =>
        let val := Z.lor (Z.shiftl (Z_of_byte a) 16) (Z.shiftl (Z_of_byte b) 8) in
        [encode (Z.land (Z.shiftr val 18) 63);
         encode (Z.land (Z.shiftr val 12) 63);
         encode (Z.land (Z.shiftr val 6) 63); padChar]
    | a :: b :: c :: rest =>
        let val := Z.lor (Z.lor (Z.shiftl (Z_of_byte a) 16)
                                (Z.shiftl (Z_of_byte b) 8)) (Z_of_byte c) in
        encode (Z.land (Z.shiftr val 18) 63)
        :: encode (Z.land (Z.shiftr val 12) 63)
        :: encode (Z.land (Z.shiftr val 6) 63)
        :: encode (Z.land val 63) :: Encode rest
    end.

Definition EncodeToString (src : list byte) : string :=
    string_of_list_byte (Encode src).

Definition is_newline (c : byte) : bool :=
    Byte.eqb c "010"%byte || Byte.eqb c "013"%byte.

  (** The loops [for si < len(src) && (src[si] == '\n' || src[si] == '\r')]
      of [decodeQuantum]: the unread input and its offset afterwards. *)
Fixpoint skip_newlines (src : list byte) (si : Z) : list byte * Z :=
    match src with
    | c :: rest => if is_newline c then skip_newlines rest (si + 1) else (src, si)
    | [] => ([], si)
    end.

  (** The tail of [decodeQuantum]: [dlen] six-bit values in [dbuf] give
      [dlen - 1] bytes. *)
Definition quantum (dbuf : list Z) : list byte :=
    let val := Z.lor (Z.lor (Z.lor (Z.shiftl (nth 0 dbuf 0) 18)
                                   (Z.shiftl (nth 1 dbuf 0) 12))
                            (Z.shiftl (nth 2 dbuf 0) 6)) (nth 3 dbuf 0) in
    firstn (length dbuf - 1)
      [byte_of_Z (Z.shiftr val 16); byte_of_Z (Z.shiftr val 8); byte_of_Z (Z.shiftr val 0)].

  (** [Encoding.Decode], as the repetition of [decodeQuantum] (the 8- and
      4-byte fast paths of the library compute the same result).  [src] is
      the input from offset [si] on, [dbuf] the six-bit values already
      read for the current quantum ([j = length dbuf]), [n] is [len(src)]
      of the whole input.  The result is the decoded prefix and the error. *)
Fixpoint decode (n : Z) (src : list byte) (si : Z) (dbuf : list Z)
    : list byte * option error :=
    match src with
    | [] =>
        match dbuf with
        | [] => ([], None)
        | _ => ([], Some (CorruptInputError (si - Z.of_nat (length dbuf))))
        end
    | c :: rest =>
        let out := decodeMap c in
        if negb (out =? 255) then
          let dbuf' := dbuf ++ [out] in
          if (length dbuf' =? 4)%nat then
            let '(o, e) := decode n rest (si + 1) [] in (quantum dbuf' ++ o, e)
          else decode n rest (si + 1) dbuf'
        else if is_newline c then decode n rest (si + 1) dbuf
        else if negb (Byte.eqb c padChar) then ([], Some (CorruptInputError si))
        else
          match length dbuf with
          | 0%nat | 1%nat => ([], Some (CorruptInputError si))
          | 2%nat =>
              let '(rest1, si1) := skip_newlines rest (si + 1) in
              match rest1 with
              | [] => ([], Some (CorruptInputError n))
              | c2 :: rest2 =>
                  if negb (Byte.eqb c2 padChar)
                  then ([], Some (CorruptInputError (si1 - 1)))
                  else
                    let '(rest3, si3) := skip_newlines rest2 (si1 + 1) in
                    (quantum dbuf,
                     match rest3 with
                     | [] => None
                     | _ => Some (CorruptInputError si3)
                     end)
              end
          | _ =>
              let '(rest3, si3) := skip_newlines rest (si + 1) in
              (quantum dbuf,
               match rest3 with
               | [] => None
               | _ => Some (CorruptInputError si3)
               end)
          end
    end.

Definition Decode (src : list byte) : list byte * option error :=
    decode (Z.of_nat (length src)) src 0 [].

Definition DecodeString (s : string) : list byte * option error :=
    Decode (list_byte_of_string s).

End Base64.

(** ** strconv *)

Module strconv.

Definition digit (c : ascii) : option Z :=
    let n := Z.of_N (N_of_ascii c) in
    if (48 <=? n) && (n <=? 57) then Some (n - 48) else None.

Definition maxUint64 : Z := 2 ^ 64 - 1.

  (** The digit loop of [ParseUint(s, 10, 64)], [n] the value so far. *)
Fixpoint parse_digits (s : string) (n : Z) : Z * option NumErrorKind :=
    match s with
    | EmptyString => (n, None)
    | String c s' =>
        match digit c with
        | None => (0, Some ErrSyntax)
        | Some d =>
            if n >=? maxUint64 / 10 + 1 then (maxUint64, Some ErrRange)
            else
              let n1 := n * 10 + d in
              if n1 >? maxUint64 then (maxUint64, Some ErrRange)
              else parse_digits s' n1
        end
    end.

Definition ParseUint (s : string) : Z * option NumErrorKind :=
    match s with
    | EmptyString => (0, Some ErrSyntax)
    | _ => parse_digits s 0
    end.

  (** [ParseInt(s, 10, 0)] on a 64-bit platform. *)
Definition ParseInt (s : string) : Z * option NumErrorKind :=
    match s with
    | EmptyString => (0, Some ErrSyntax)
    | String c s' =>
        let neg := Ascii.eqb c "-" in
        let digits := if Ascii.eqb c "+" || neg then s' else s in
        match ParseUint digits with
        | (_, Some ErrSyntax) => (0, Some ErrSyntax)
        | (un, _) =>
            let cutoff := 2 ^ 63 in
            if negb neg && (un >=? cutoff) then (cutoff - 1, Some ErrRange)
            else if neg && (un >? cutoff) then (- cutoff, Some ErrRange)
            else (if neg then - un else un, None)
        end
    end.

  (** [Atoi]: its fast path for short inputs returns what [ParseInt]
      returns; the error carries the function name and the input. *)
Definition Atoi (s : string) : Z * option error :=
    match ParseInt s with
    | (i, None) => (i, None)
    | (i, Some k) => (i, Some (NumError "Atoi" s k))
    end.

  (** [FormatInt(i, 10)] *)
Definition FormatInt (i : Z) : string := NilZero.string_of_int (Z.to_int i).

End strconv.

(** ** strings *)

Module strings.

  (** [Contains(s, substr)] *)
Fixpoint Contains (s substr : string) : bool :=
    String.prefix substr s
    || match s with
       | EmptyString => false
       | String _ s' => Contains s' substr
       end.

Fixpoint drop (n : nat) (s : string) : string :=
    match n, s with
    | S n', String _ s' => drop n' s'
    | _, _ => s
    end.

  (** [m := Index(s, sep)] with [s[:m]] and [s[m+len(sep):]], if [m >= 0]. *)
Fixpoint cut (s sep : string) : option (string * string) :=
    if String.prefix sep s then Some (EmptyString, drop (String.length sep) s)
    else
      match s with
      | EmptyString => None
      | String c s' =>
          match cut s' sep with
          | Some (before, after) => Some (String c before, after)
          | None => None
          end
      end.

  (** The loop of [genSplit]: at most [k] further cuts. *)
Fixpoint split_upto (k : nat) (s sep : string) : list string :=
    match k with
    | O => [s]
    | S k' =>
        match cut s sep with
        | None => [s]
        | Some (before, after) => before :: split_upto k' after sep
        end
    end.

  (** [SplitN(s, sep, n)] for a non-empty [sep] and [n >= 0]. *)
Definition SplitN (s sep : string) (n : nat) : list string :=
    match n with
    | O => []
    | S k => split_upto k s sep
    end.

End strings.

(** ** net/http, net/textproto, net/url, gorilla/mux *)

Definition Header := gmap string (list string).
Definition Values := gmap string (list string).

Module textproto.

Definition code (c : ascii) : Z := Z.of_N (N_of_ascii c).
Definition is_lower (c : ascii) : bool := (97 <=? code c) && (code c <=? 122).
Definition is_upper (c : ascii) : bool := (65 <=? code c) && (code c <=? 90).
Definition is_digit (c : ascii) : bool := (48 <=? code c) && (code c <=? 57).

  (** The token characters of RFC 7230. *)
Definition validHeaderFieldByte (c : ascii) : bool :=
    is_lower c || is_upper c || is_digit c
    || existsb (Ascii.eqb c) (list_ascii_of_string "!#$%&'*+-.^_`|~").

Definition to_upper (c : ascii) : ascii := ascii_of_N (Z.to_N (code c - 32)).
Definition to_lower (c : ascii) : ascii := ascii_of_N (Z.to_N (code c + 32)).

  (** First letter upper case, and upper case after each dash. *)
Fixpoint canonical (upper : bool) (s : string) : string :=
    match s with
    | EmptyString => EmptyString
    | String c s' =>
        let c' := if upper && is_lower c then to_upper c
                  else if negb upper && is_upper c then to_lower c
                  else c in
        String c' (canonical (Ascii.eqb c' "-") s')
    end.

  (** [CanonicalMIMEHeaderKey]: a key with a byte that is not a token
      character is returned unchanged. *)
Definition CanonicalMIMEHeaderKey (s : string) : string :=
    if forallb validHeaderFieldByte (list_ascii_of_string s)
    then canonical true s else s.

End textproto.

(** [Header.Set] *)
Definition Header_Set (h : Header) (key value : string) : Header :=
  <[textproto.CanonicalMIMEHeaderKey key := [value]]> h.

(** [Values.Get]: the first value of the key, the empty string if none. *)
Definition Values_Get (v : Values) (key : string) : string :=
  match v !! key with
  | Some (x :: _) => x
  | _ => EmptyString
  end.

Definition StatusNotFound : Z := 404.
Definition StatusNoContent : Z := 204.

(** The part of [*http.Request] the handlers read.  [URL_Query] is
    [r.URL.Query()], [Vars] is [mux.Vars(r)], [Body] is the result of
    [ioutil.ReadAll(r.Body)]. *)
Record Request := {
  RemoteAddr : string;
  Method : string;
  URL_Path : string;
  URL_Query : Values;
  Req_Header : Header;
  RequestURI : string;
  Body : list byte * option error;
  Vars : gmap string string;
}.

(** An [http.ResponseWriter]: the header map and the status code written,
    if any.  A second [WriteHeader] is ignored by [net/http]. *)
Record ResponseWriter := {
  w_Header : Header;
  w_Status : option Z;
}.

Definition newResponseWriter : ResponseWriter :=
  {| w_Header := ∅; w_Status := None |}.

Definition WriteHeader (w : ResponseWriter) (statusCode : Z) : ResponseWriter :=
  match w_Status w with
  | None => {| w_Header := w_Header w; w_Status := Some statusCode |}
  | Some _ => w
  end.

Definition SetHeader (w : ResponseWriter) (key value : string) : ResponseWriter :=
  {| w_Header := Header_Set (w_Header w) key value; w_Status := w_Status w |}.

(** Map indexing [vars[k]] of a [map[string]string]: the zero value for a
    missing key. *)
Definition index_map (m : gmap string string) (k : string) : string :=
  default EmptyString (m !! k).

(** ** Logging (logrus): the calls made, in order *)

Inductive LogEntry :=
| LogInfo (msg : string)
| LogDebugf (format arg : string)
| LogError (err : error)
| LogErrorf (format : string) (err : error).

(** ** package conf, package models: the declarations the handler uses *)

Record Config := {
  MaxCacheUses : Z;
  UrlCacheExpiration : Z;
}.

Record Message := {
  ProjectId : Z;
  RequestMethod : string;
  Headers : Header;
  OriginUrl : string;
  RequestBody : list byte;
}.

(** The methods of [*models.Cache] that [validateCache] calls, over a
    store state [S].  Each returns its Go result and the store
    afterwards; [ttl] is a [time.Duration]. *)
Class CacheStore (S : Type) := {
  cache_Get : string -> S -> (Z * option error) * S;
  cache_Set : string -> Z -> S -> option error * S;
  cache_Incr : string -> S -> (Z * option error) * S;
}.

Definition Second : Z := 1000000000.

(** ** package api *)

Record XSentryAuth := {
  sentry_key : string;
  sentry_secret : string;
}.

Section Api.

Context {S : Type} `{CacheStore S}.

  (** [hash.HashForGrouping] *)
Variable HashForGrouping : list byte -> string * option error.

  (** [header.ParseList] of golang/gddo *)
Variable ParseList : Header -> string -> list string.

  (** [projects] stands for [*models.SentryProjects] through its method
      [IsValidProjectAndPublicKey]; [requestStorage] for
      [*models.RequestStorage] through the [Put] calls it received. *)
Record Api := {
    cfg : Config;
    cache : S;
    requestStorage : list (Z * Message);
    projects : Z -> string -> bool;
    ignoredItems : Z;
    processedItems : Z;
  }.

Definition set_cache (a : Api) (c : S) : Api :=
    {| cfg := cfg a; cache := c; requestStorage := requestStorage a;
       projects := projects a; ignoredItems := ignoredItems a;
       processedItems := processedItems a |}.

Definition add_ignoredItems (a : Api) (delta : Z) : Api :=
    {| cfg := cfg a; cache := cache a; requestStorage := requestStorage a;
       projects := projects a; ignoredItems := uint64 (ignoredItems a + delta);
       processedItems := processedItems a |}.

Definition add_processedItems (a : Api) (delta : Z) : Api :=
    {| cfg := cfg a; cache := cache a; requestStorage := requestStorage a;
       projects := projects a; ignoredItems := ignoredItems a;
       processedItems := uint64 (processedItems a + delta) |}.

  (** [a.requestStorage.Put(projectId, m)] *)
Definition Put (a : Api) (projectId : Z) (m : Message) : Api :=
    {| cfg := cfg a; cache := cache a;
       requestStorage := requestStorage a ++ [(projectId, m)];
       projects := projects a; ignoredItems := ignoredItems a;
       processedItems := processedItems a |}.

Definition logRequest (r : Request) : list LogEntry :=
    [LogInfo (RemoteAddr r +:+ " " +:+ Method r +:+ " " +:+ URL_Path r)].

  (** The body of the loop over [headerValues].  Under the guard
      [strings.Contains(v, "=")] the slice [sp] has two elements (lemma
      [SplitN_two]), so [sp[0]] and [sp[1]] never go out of range and the
      default of [!!!] is not used. *)
Definition auth_field (x : XSentryAuth) (v : string) : XSentryAuth :=
    if strings.Contains v "=" then
      let sp := strings.SplitN v "=" 2 in
      if String.eqb (sp !!! 0%nat) "sentry_key" then
        {| sentry_key := sp !!! 1%nat; sentry_secret := sentry_secret x |}
      else if String.eqb (sp !!! 0%nat) "sentry_secret" then
        {| sentry_key := sentry_key x; sentry_secret := sp !!! 1%nat |}
      else x
    else x.

Definition getSentryKeyAndSecret (r : Request) : XSentryAuth :=
    let xSentryAuth :=
      {| sentry_key := Values_Get (URL_Query r) "sentry_key";
         sentry_secret := EmptyString |} in
    let headerValues := ParseList (Req_Header r) "X-Sentry-Auth" in
    foldl auth_field xSentryAuth headerValues.

Definition getRequestBody (r : Request) : list byte * option error :=
    match Body r with
    | (body, Some err) => (body, Some err)
    | (body, None) =>
        match Base64.DecodeString (string_of_list_byte body) with
        | (b64decodedBody, None) => (b64decodedBody, None)
        | (_, Some _) => (body, None)
        end
    end.

Definition validateCache (a : Api) (url : string) : Z * Api :=
    if UrlCacheExpiration (cfg a) >? 0 then
      let '((count, _), c1) := cache_Get url (cache a) in
      let c2 :=
        if count =? 0
        then snd (cache_Set url (int64 (int64 (UrlCacheExpiration (cfg a)) * Second)) c1)
        else c1 in
      let '((count, _), c3) := cache_Incr url c2 in
      (count, set_cache a c3)
    else (0, a).

Definition processRequest (a : Api) (r : Request) (projectId : Z)
      (originUrl : string) (body : list byte) : Api :=
    let m := {| ProjectId := projectId;
                RequestMethod := Method r;
                Headers := Req_Header r;
                OriginUrl := originUrl;
                RequestBody := body |} in
    Put a projectId m.

  (** The two buffers the handler fills. *)
Definition cacheKey (vars : gmap string string) (exceptionHash : string) : string :=
    index_map vars "projectId" +:+ exceptionHash.

Definition originUrl (r : Request) : string :=
    "http://localhost:2222" +:+ RequestURI r.

  (** [apiHandler]: the response writer and the [Api] afterwards, and the
      log calls made. *)
Definition apiHandler (a : Api) (w : ResponseWriter) (r : Request)
    : ResponseWriter * Api * list LogEntry :=
    let log0 := logRequest r in
    let vars := Vars r in
    match strconv.Atoi (index_map vars "projectId") with
    | (_, Some err) => (WriteHeader w StatusNotFound, a, log0 ++ [LogError err])
    | (projectId, None) =>
        if negb (projects a projectId (sentry_key (getSentryKeyAndSecret r)))
        then (WriteHeader w StatusNotFound, a, log0)
        else
          match getRequestBody r with
          | (_, Some err) => (WriteHeader w StatusNotFound, a, log0 ++ [LogError err])
          | (bodyBytes, None) =>
              let '(exceptionHash, herr) := HashForGrouping bodyBytes in
              let log1 :=
                match herr with
                | Some err =>
                    [LogErrorf "Unable to calculate a hash for the request: %s" err]
                | None => []
                end in
              let key := cacheKey vars exceptionHash in
              let log2 := [LogDebugf "Cache Key: %s" key;
                           LogDebugf "Origin URL: %s" (originUrl r)] in
              let logs := log0 ++ log1 ++ log2 in
              let '(count, a1) := validateCache a key in
              if count >? int64 (MaxCacheUses (cfg a1)) then
                let w1 := SetHeader w "X-CYCLOPS-CACHE-COUNT" (strconv.FormatInt count) in
                let w2 := SetHeader w1 "X-CYCLOPS-STATUS" "IGNORED" in
                let a2 := add_ignoredItems a1 1 in
                (WriteHeader w2 StatusNoContent, a2, logs)
              else
                let w1 := SetHeader w "X-CYCLOPS-CACHE-COUNT" (strconv.FormatInt count) in
                let w2 := SetHeader w1 "X-CYCLOPS-STATUS" "PROCESSED" in
                let a2 := add_processedItems a1 1 in
                let a3 := processRequest a2 r projectId (originUrl r) bodyBytes in
                (WriteHeader w2 StatusNoContent, a3, logs)
          end
    end.

End Api.

Arguments Api S : clear implicits.

(** ** golang/gddo [httputil/header]

    [ParseList] is a parameter of the handler above; this is the library's
    function, used to run the handler on concrete requests. *)

Module header.

Record scan := {
    sc_begin : nat;
    sc_end : nat;
    sc_escape : bool;
    sc_quote : bool;
    sc_result : list string;
  }.

Definition isSpace (b : ascii) : bool :=
    existsb (Ascii.eqb b) [" "%char; "009"%char; "013"%char; "010"%char].

  (** One iteration of the loop over the bytes of a header value [s], at
      index [i] with byte [b]. *)
Definition scan_byte (s : string) (st : scan) (i : nat) (b : ascii) : scan :=
    let '{| sc_begin := begin; sc_end := end_; sc_escape := escape;
            sc_quote := quote; sc_result := result |} := st in
    if escape then
      {| sc_begin := begin; sc_end := i + 1; sc_escape := false;
         sc_quote := quote; sc_result := result |}
    else if quote then
      {| sc_begin := begin; sc_end := i + 1;
         sc_escape := Ascii.eqb b "092"%char;
         sc_quote := negb (Ascii.eqb b "034"%char);
         sc_result := result |}
    else if Ascii.eqb b "034"%char then
      {| sc_begin := begin; sc_end := i + 1; sc_escape := false;
         sc_quote := true; sc_result := result |}
    else if isSpace b then
      if (begin =? end_)%nat then
        {| sc_begin := i + 1; sc_end := i + 1; sc_escape := false;
           sc_quote := false; sc_result := result |}
      else st
    else if Ascii.eqb b "," then
      {| sc_begin := i + 1; sc_end := i + 1; sc_escape := false; sc_quote := false;
         sc_result := if (begin <? end_)%nat
                      then result ++ [substring begin (end_ - begin) s]
                      else result |}
    else
      {| sc_begin := begin; sc_end := i + 1; sc_escape := false;
         sc_quote := false; sc_result := result |}.

Fixpoint scan_from (s : string) (st : scan) (i : nat) (rest : string) : scan :=
    match rest with
    | EmptyString => st
    | String b rest' => scan_from s (scan_byte s st i b) (S i) rest'
    end.

  (** The elements of one header value, appended to [result]. *)
Definition parse_value (result : list string) (s : string) : list string :=
    let st := scan_from s {| sc_begin := 0; sc_end := 0; sc_escape := false;
                             sc_quote := false; sc_result := result |} 0 s in
    if (sc_begin st <? sc_end st)%nat
    then sc_result st ++ [substring (sc_begin st) (sc_end st - sc_begin st) s]
    else sc_result st.

Definition ParseList (h : Header) (key : string) : list string :=
    foldl parse_value [] (default [] (h !! textproto.CanonicalMIMEHeaderKey key)).

End header.

(** ** The cache store *)

Module MemCache.

  (** Modelled from the spec: the entry of the admission cache (package
      [models] is not part of the sources at hand), a count and the
      instant it expires.  An entry made by [incrementAndGet] has no
      deadline: the spec hands that operation no TTL to arm. *)
Record CacheEntry := {
    count : Z;
    expiresAt : option Z;
  }.

  (** Modelled from the spec: the store behind [models.Cache], its
      entries, its clock (in nanoseconds, the unit of [time.Duration]) and
      whether it can be reached. *)
Record Store := {
    entries : gmap string CacheEntry;
    clock : Z;
    reachable : bool;
  }.

Definition set_entries (s : Store) (m : gmap string CacheEntry) : Store :=
    {| entries := m; clock := clock s; reachable := reachable s |}.

  (** The environment moving the store's clock. *)
Definition at_time (t : Z) (s : Store) : Store :=
    {| entries := entries s; clock := t; reachable := reachable s |}.

(** Modelled from the spec: an entry is live until its deadline
    ([expiresAt] elapsed means absent). *)
Definition live (now : Z) (e : CacheEntry) : bool :=
    match expiresAt e with
    | Some t => now <? t
    | None => true
    end.

  (** Modelled from the spec: the entry of [key], unless absent or expired
    (an expired entry is treated as absent). *)
Definition current (s : Store) (key : string) : option CacheEntry :=
    match entries s !! key with
    | Some e => if live (clock s) e then Some e else None
    | None => None
    end.

  (** Modelled from the spec: [get(key) -> count] of the admission cache
      ([models.Cache.Get], absent from the sources), the current count, the
      zero value if the key is absent or expired, [StoreUnavailable] with
      the zero value if the store cannot be reached. *)
Definition get (key : string) (s : Store) : (Z * option error) * Store :=
    if reachable s then
      match current s key with
      | Some e => ((count e, None), s)
      | None => ((0, None), s)
      end
    else ((0, Some StoreUnavailable), s).

  (** Modelled from the spec: [setIfAbsent(key, ttl)] of the admission
      cache ([models.Cache.Set], absent from the sources), a fresh entry
      with the scheme's base count and deadline [ttl] from now only if none
      exists; a no-op otherwise. *)
Definition setIfAbsent (key : string) (ttl : Z) (s : Store) : option error * Store :=
    if reachable s then
      match current s key with
      | Some _ => (None, s)
      | None =>
          (None, set_entries s (<[key := {| count := 0; expiresAt := Some (clock s + ttl) |}]>
                                  (entries s)))
      end
    else (Some StoreUnavailable, s).

  (** Modelled from the spec: [incrementAndGet(key) -> count] of the
      admission cache ([models.Cache.Incr], absent from the sources), one
      atomic step that increments the 64-bit counter and returns the new
      value, keeping the deadline; an absent or expired entry restarts at
      one. *)
Definition incrementAndGet (key : string) (s : Store) : (Z * option error) * Store :=
    if reachable s then
      match current s key with
      | Some e =>
          let c := int64 (count e + 1) in
          ((c, None),
           set_entries s (<[key := {| count := c; expiresAt := expiresAt e |}]> (entries s)))
      | None =>
          ((1, None),
           set_entries s (<[key := {| count := 1; expiresAt := None |}]> (entries s)))
      end
    else ((0, Some StoreUnavailable), s).

#[global] Instance store : CacheStore Store := {|
    cache_Get := get;
    cache_Set := setIfAbsent;
    cache_Incr := incrementAndGet;
  |}.

Definition empty : Store := {| entries := ∅; clock := 0; reachable := true |}.

End MemCache.

(** ** Sequences of submissions *)

Section Submissions.

Variable HashForGrouping : list byte -> string * option error.
Variable ParseList : Header -> string -> list string.

  (** One request handled while the store's clock reads [t]. *)
Definition submit_at (a : Api MemCache.Store) (r : Request) (t : Z)
    : ResponseWriter * Api MemCache.Store :=
    let '(w, a', _) :=
      apiHandler HashForGrouping ParseList
        (set_cache a (MemCache.at_time t (cache a))) newResponseWriter r in
    (w, a').

  (** The same request submitted once at each of the instants [times], one
      after the other: the responses in order and the [Api] at the end. *)
Fixpoint submissions (a : Api MemCache.Store) (r : Request) (times : list Z)
    : list ResponseWriter * Api MemCache.Store :=
    match times with
    | [] => ([], a)
    | t :: times' =>
        let '(w, a1) := submit_at a r t in
        let '(ws, a2) := submissions a1 r times' in
        (w :: ws, a2)
    end.

End Submissions.

(** The value of the [X-CYCLOPS-STATUS] response header. *)
Definition status_tag (w : ResponseWriter) : option (list string) :=
  w_Header w !! textproto.CanonicalMIMEHeaderKey "X-CYCLOPS-STATUS".

Definition cache_count (w : ResponseWriter) : option (list string) :=
  w_Header w !! textproto.CanonicalMIMEHeaderKey "X-CYCLOPS-CACHE-COUNT".

(** The TTL handed to the store, [time.Duration(ttl) * time.Second]. *)
Definition window (c : Config) : Z := int64 (int64 (UrlCacheExpiration c) * Second).

(** ** Concurrent callers of [validateCache]

    Each caller runs [validateCache] on the same key; the store executes
    one operation at a time, so an execution is an interleaving of the
    callers' cache operations and of the passing of time. *)

Module Concurrent.

  (** Where a caller stands in [validateCache]: before [Get], before
      [Set], before [Incr], or returned with its count. *)
Inductive pc := AtGet | AtSet | AtIncr | Returned (count : Z).

Section Caller.

Context {S : Type} `{CacheStore S}.
Variable cfg : Config.
Variable url : string.

    (** The next cache operation of a caller, as [validateCache] orders
        them. *)
Definition caller_step (p : pc) (c : S) : option (pc * S) :=
      match p with
      | AtGet =>
          if UrlCacheExpiration cfg >? 0 then
            let '((count, _), c1) := cache_Get url c in
            Some (if count =? 0 then AtSet else AtIncr, c1)
          else Some (Returned 0, c)
      | AtSet =>
          Some (AtIncr,
                snd (cache_Set url (int64 (int64 (UrlCacheExpiration cfg) * Second)) c))
      | AtIncr =>
          let '((count, _), c3) := cache_Incr url c in
          Some (Returned count, c3)
      | Returned _ => None
      end.

    (** A caller running alone, for at most [fuel] operations. *)
Fixpoint run_caller (fuel : nat) (p : pc) (c : S) : pc * S :=
      match fuel with
      | O => (p, c)
      | Datatypes.S fuel' =>
          match caller_step p c with
          | Some (p', c') => run_caller fuel' p' c'
          | None => (p, c)
          end
      end.

End Caller.

Definition returned (p : pc) : option Z :=
    match p with
    | Returned n => Some n
    | _ => None
    end.

  (** One step of the system: some caller performs its next operation, or
      the clock moves forward, staying before [deadline]. *)
Inductive step (cfg : Config) (url : string) (deadline : Z)
    : relation (list pc * MemCache.Store) :=
  | step_caller (i : nat) ps p p' c c' :
      ps !! i = Some p ->
      caller_step cfg url p c = Some (p', c') ->
      step cfg url deadline (ps, c) (<[i := p']> ps, c')
  | step_clock ps c t :
      MemCache.clock c <= t < deadline ->
      step cfg url deadline (ps, c) (ps, MemCache.at_time t c).

  (** What every reachable state of [K] callers started on a key without
      live entry satisfies: the store is reachable and the deadline has not
      passed; either no entry was made yet and no caller is past [Set], or
      the entry holds the number of callers that returned, and their counts
      are 1, 2, ... up to that number in some order. *)
Definition invariant (cfg : Config) (url : string) (K : nat) (s0 : MemCache.Store)
      (st : list pc * MemCache.Store) : Prop :=
    let '(ps, s) := st in
    length ps = K
    /\ MemCache.reachable s = true
    /\ MemCache.clock s0 <= MemCache.clock s < MemCache.clock s0 + window cfg
    /\ ((MemCache.current s url = None /\ Forall (fun p => p = AtGet \/ p = AtSet) ps)
        \/ exists d,
             MemCache.clock s0 + window cfg <= d
             /\ MemCache.entries s !! url
                = Some {| MemCache.count := Z.of_nat (length (omap returned ps));
                          MemCache.expiresAt := Some d |}
             /\ omap returned ps
                ≡ₚ map Z.of_nat (seq 1 (length (omap returned ps)))).

End Concurrent.

(** ** Sample inputs *)

Module Sample.

Definition config (maxUses ttl : Z) : Config :=
    {| MaxCacheUses := maxUses; UrlCacheExpiration := ttl |}.

  (** Project 1 with public key [k1]. *)
Definition known_projects (projectId : Z) (key : string) : bool :=
    (projectId =? 1) && String.eqb key "k1".

Definition api (maxUses ttl : Z) (c : MemCache.Store) : Api MemCache.Store :=
    {| cfg := config maxUses ttl; cache := c; requestStorage := [];
       projects := known_projects; ignoredItems := 0; processedItems := 0 |}.

Definition request (query : Values) (hdr : Header) (body : list byte * option error)
    : Request :=
    {| RemoteAddr := "10.0.0.7:4242"; Method := "POST";
       URL_Path := "/api/1/store/"; URL_Query := query; Req_Header := hdr;
       RequestURI := "/api/1/store/?sentry_key=k1";
       Body := body; Vars := {[ "projectId" := "1" ]} |}.

Definition query_k1 : Values := {[ "sentry_key" := ["k1"] ]}.

  (** A valid request for project 1 with the given body. *)
Definition post (body : list byte) : Request :=
    request query_k1 ∅ (body, None).

  (** The same request whose body could not be read. *)
Definition post_broken : Request :=
    request query_k1 ∅ ([], Some (ReadError "unexpected EOF")).

  (** A grouping oracle that fails on every input. *)
Definition hash_fails (body : list byte) : string * option error :=
    (EmptyString, Some (HashError "no exception in event")).

  (** A grouping oracle that tells all bodies apart. *)
Definition hash_id (body : list byte) : string * option error :=
    (string_of_list_byte body, None).

Definition unreachable : MemCache.Store :=
    {| MemCache.entries := ∅; MemCache.clock := 0; MemCache.reachable := false |}.

End Sample.

(** ** Vocabulary of the properties *)

(** A byte of the base64 alphabet. *)
Definition alphabet (c : byte) : bool := negb (Base64.decodeMap c =? 255).

Definition is_pad (c : byte) : bool := Byte.eqb c Base64.padChar.

(** Groups of four alphabet characters, the last of which may end in one
    or two padding characters. *)
Fixpoint quads (t : list byte) : bool :=
  match t with
  | [] => true
  | a :: b :: c :: d :: rest =>
      alphabet a && alphabet b
      && (alphabet c && alphabet d && quads rest
          || match rest with
             | [] => (alphabet c || is_pad c) && is_pad d
             | _ => false
             end)
  | _ => false
  end.

(** The syntax of standard base64 as [StdEncoding] reads it: carriage
    returns and line feeds are not part of the text. *)
Definition std_base64_syntax (s : list byte) : bool :=
  quads (filter (fun c => Base64.is_newline c = false) s).

(** The value of the last element of a parsed header list that reads
    [field=value], cut at its first [=]. *)
Definition field_value (field v : string) : option string :=
  match strings.cut v "=" with
  | Some (f, x) => if String.eqb f field then Some x else None
  | None => None
  end.

Definition last_field (field : string) (l : list string) : option string :=
  last (omap (field_value field) l).

(** Auth resolution in the words of the specification: key and secret
    both start from the query parameters, and each is overridden by the
    last header element naming it. *)
Definition auth_as_specified (ParseList : Header -> string -> list string)
    (r : Request) : XSentryAuth :=
  let l := ParseList (Req_Header r) "X-Sentry-Auth" in
  {| sentry_key :=
       default (Values_Get (URL_Query r) "sentry_key") (last_field "sentry_key" l);
     sentry_secret :=
       default (Values_Get (URL_Query r) "sentry_secret") (last_field "sentry_secret" l) |}.

Section Outcomes.

Context {S : Type}.

  (** The request was dropped as a repeat: no-content response with the
      count and the [IGNORED] tag, the ignored counter bumped, nothing
      queued. *)
Definition ignored (a a' : Api S) (w' : ResponseWriter) (count : Z) : Prop :=
    w_Status w' = Some StatusNoContent
    /\ cache_count w' = Some [strconv.FormatInt count]
    /\ status_tag w' = Some ["IGNORED"%string]
    /\ ignoredItems a' = uint64 (ignoredItems a + 1)
    /\ processedItems a' = processedItems a
    /\ requestStorage a' = requestStorage a.

  (** The request was admitted: no-content response with the count and
      the [PROCESSED] tag, the processed counter bumped, the message put on
      the delivery queue. *)
Definition admitted (a a' : Api S) (w' : ResponseWriter) (count : Z)
      (projectId : Z) (m : Message) : Prop :=
    w_Status w' = Some StatusNoContent
    /\ cache_count w' = Some [strconv.FormatInt count]
    /\ status_tag w' = Some ["PROCESSED"%string]
    /\ processedItems a' = uint64 (processedItems a + 1)
    /\ ignoredItems a' = ignoredItems a
    /\ requestStorage a' = requestStorage a ++ [(projectId, m)].

  (** The message [processRequest] builds for a request and its body. *)
Definition message_of (r : Request) (projectId : Z) (body : list byte) : Message :=
    {| ProjectId := projectId; RequestMethod := Method r; Headers := Req_Header r;
       OriginUrl := originUrl r; RequestBody := body |}.

  (** The request reaches the admission decision: the project id parses
      and the project and key are known. *)
Definition validated (ParseList : Header -> string -> list string)
      (a : Api S) (r : Request) (projectId : Z) : Prop :=
    strconv.Atoi (index_map (Vars r) "projectId") = (projectId, None)
    /\ projects a projectId (sentry_key (getSentryKeyAndSecret ParseList r)) = true.

End Outcomes.

(** The instants of a series of submissions lie in the window that the
    first of them opens. *)
Definition one_window (dur : Z) (times : list Z) : Prop :=
  match times with
  | [] => True
  | t0 :: _ => Forall (fun t => t0 <= t < t0 + dur) times
  end.

(** No live entry for the key when the first submission arrives. *)
Definition fresh_at (key : string) (c : MemCache.Store) (times : list Z) : Prop :=
  match times with
  | [] => True
  | t0 :: _ => MemCache.current (MemCache.at_time t0 c) key = None
  end.

(** The status tag that goes with a count under a threshold. *)
Definition tag_of (count threshold : Z) : option (list string) :=
  Some [if count >? threshold then "IGNORED"%string else "PROCESSED"%string].

(** The state a series of submissions keeps: the store is reachable and
    the key's entry holds [k] with the deadline of the window. *)
Definition counted (key : string) (a : Api MemCache.Store) (k deadline : Z) : Prop :=
  MemCache.reachable (cache a) = true
  /\ MemCache.entries (cache a) !! key
     = Some {| MemCache.count := k; MemCache.expiresAt := Some deadline |}.

(** ** The read-only handlers, and serving requests in turn *)

(** [strconv.FormatUint(i, 10)] *)
Definition FormatUint (i : Z) : string :=
  NilZero.string_of_uint (N.to_uint (Z.to_N i)).

Definition StatusOK : Z := 200.

(** [w.Write(b)] on a response whose body so far is [body]: the first
    write sends status 200 if no status was written. *)
Definition Write (w : ResponseWriter) (body b : list byte) : ResponseWriter * list byte :=
  (WriteHeader w StatusOK, body ++ b).

Definition newline : string := String "010"%char EmptyString.

Section Handlers.

Context {S : Type} `{CacheStore S}.
Variable HashForGrouping : list byte -> string * option error.
Variable ParseList : Header -> string -> list string.

(** [healthcheckHandler]: the response writer, the body written and the
    log call. *)
Definition healthcheckHandler (a : Api S) (w : ResponseWriter) (r : Request)
  : ResponseWriter * list byte * list LogEntry :=
  let '(w1, body) := Write w [] (list_byte_of_string "OK") in
  (w1, body, [LogInfo (RemoteAddr r +:+ " " +:+ Method r +:+ " " +:+ URL_Path r)]).

(** [statsHandler]: the response writer and the body written. *)
Definition statsHandler (a : Api S) (w : ResponseWriter) (r : Request)
  : ResponseWriter * list byte :=
  let stats :=
    "Processed Items: " +:+ FormatUint (processedItems a) +:+ newline
    +:+ "Ignored Items: " +:+ FormatUint (ignoredItems a) in
  Write w [] (list_byte_of_string stats).

(** The struct [NewApiRouter] builds: both counters start at zero. *)
Definition NewApi (cfg0 : Config) (cache0 : S) (requestStorage0 : list (Z * Message))
    (projects0 : Z -> string -> bool) : Api S :=
  {| cfg := cfg0; cache := cache0; requestStorage := requestStorage0;
     projects := projects0; ignoredItems := 0; processedItems := 0 |}.

(** Requests handled by [apiHandler] one after the other, each with its
    own response writer: the responses in order and the [Api] at the end. *)
Fixpoint serve (a : Api S) (rs : list Request) : list ResponseWriter * Api S :=
  match rs with
  | [] => ([], a)
  | r :: rs' =>
      let '(w, a1, _) := apiHandler HashForGrouping ParseList a newResponseWriter r in
      let '(ws, a2) := serve a1 rs' in
      (w :: ws, a2)
  end.

End Handlers.

(** The number of responses carrying a status tag. *)
Definition tagged (tag : string) (ws : list ResponseWriter) : nat :=
  length (filter (fun w => status_tag w = Some [tag]) ws).

(** A text made of decimal digits only, as the route pattern
    [{projectId:[0-9]+}] demands of the project id. *)
Definition all_digits (s : string) : bool :=
  forallb textproto.is_digit (list_ascii_of_string s).

(** * Properties *)

(** ** Machine integers and bytes *)

Lemma byte_of_Z_of_byte (b : byte) : byte_of_Z (Z_of_byte b) = b.
Proof.
  unfold byte_of_Z, Z_of_byte.
  pose proof (Byte.to_N_bounded b) as Hb.
  rewrite Z.mod_small by lia.
  rewrite N2Z.id, Byte.of_to_N. reflexivity.
Qed.

Lemma Z_of_byte_range (b : byte) : 0 <= Z_of_byte b < 256.
Proof. unfold Z_of_byte. pose proof (Byte.to_N_bounded b). lia. Qed.

Lemma int64_small (x : Z) : - 2 ^ 63 <= x < 2 ^ 63 -> int64 x = x.
Proof. intros Hx. unfold int64. rewrite Z.mod_small; lia. Qed.

Lemma uint64_add_uint64 (x y : Z) : uint64 (uint64 x + y) = uint64 (x + y).
Proof. unfold uint64. apply Zplus_mod_idemp_l. Qed.

(** ** encoding/base64: encoding and decoding are inverse *)

Module Base64Facts.
Import Base64.

Lemma decodeMap_encode (v : Z) : 0 <= v < 64 -> decodeMap (encode v) = v.
  Proof.
    intros Hv.
    assert (Hall : forallb (fun i => decodeMap (encode (Z.of_nat i)) =? Z.of_nat i) (seq 0 64) = true)
      by (vm_compute; reflexivity).
    rewrite forallb_forall in Hall.
    specialize (Hall (Z.to_nat v)).
    rewrite Z2Nat.id in Hall by lia.
    apply Z.eqb_eq, Hall, in_seq. lia.
  Qed.

Lemma testbit_above (y n k : Z) : 0 <= y < 2 ^ n -> n <= k -> Z.testbit y k = false.
  Proof.
    intros Hy Hk.
    destruct (Z.eq_dec y 0) as [-> | Hy0]; [ apply Z.bits_0 | ].
    apply Z.bits_above_log2; [ lia | ].
    assert (Z.log2 y < n) by (apply Z.log2_lt_pow2; lia). lia.
  Qed.

Lemma land_shiftl_low (x y n : Z) :
    0 <= n -> 0 <= y < 2 ^ n -> Z.land (Z.shiftl x n) y = 0.
  Proof.
    intros Hn Hy. apply Z.bits_inj'. intros k Hk.
    rewrite Z.land_spec, Z.bits_0.
    destruct (Z.lt_ge_cases k n) as [Hlt | Hge].
    - rewrite Z.shiftl_spec_low by lia. reflexivity.
    - rewrite (testbit_above y n k) by lia. apply andb_false_r.
  Qed.

Lemma lor_shiftl (x y n : Z) :
    0 <= n -> 0 <= y < 2 ^ n -> Z.lor (Z.shiftl x n) y = x * 2 ^ n + y.
  Proof.
    intros Hn Hy.
    rewrite <- Z.shiftl_mul_pow2 by lia.
    pose proof (land_shiftl_low x y n Hn Hy) as Hland.
    rewrite Z.add_nocarry_lxor by exact Hland.
    symmetry. apply Z.lxor_lor. exact Hland.
  Qed.

Lemma land_63 (x : Z) : Z.land x 63 = x mod 64.
  Proof. change 63 with (Z.ones 6). rewrite Z.land_ones by lia. reflexivity. Qed.

Lemma shiftr_div (x k : Z) : 0 <= k -> Z.shiftr x k = x / 2 ^ k.
  Proof. intros Hk. apply Z.shiftr_div_pow2. exact Hk. Qed.

  (** [val] with its three bytes laid side by side. *)
Lemma pack_bytes (a b c : Z) :
    0 <= b < 256 -> 0 <= c < 256 ->
    Z.lor (Z.lor (Z.shiftl a 16) (Z.shiftl b 8)) c = a * 65536 + b * 256 + c.
  Proof.
    intros Hb Hc.
    rewrite (Z.shiftl_mul_pow2 b 8) by lia.
    rewrite (lor_shiftl a (b * 2 ^ 8) 16) by lia.
    replace (a * 2 ^ 16 + b * 2 ^ 8) with (Z.shiftl (a * 256 + b) 8)
      by (rewrite Z.shiftl_mul_pow2 by lia; lia).
    rewrite lor_shiftl by lia. lia.
  Qed.

  (** The four six-bit values put together again in [decodeQuantum]. *)
Lemma pack_sextets (s0 s1 s2 s3 : Z) :
    0 <= s1 < 64 -> 0 <= s2 < 64 -> 0 <= s3 < 64 ->
    Z.lor (Z.lor (Z.lor (Z.shiftl s0 18) (Z.shiftl s1 12)) (Z.shiftl s2 6)) s3
    = s0 * 262144 + s1 * 4096 + s2 * 64 + s3.
  Proof.
    intros H1 H2 H3.
    rewrite (Z.shiftl_mul_pow2 s1 12), (Z.shiftl_mul_pow2 s2 6) by lia.
    rewrite (lor_shiftl s0 (s1 * 2 ^ 12) 18) by lia.
    replace (s0 * 2 ^ 18 + s1 * 2 ^ 12) with (Z.shiftl (s0 * 64 + s1) 12)
      by (rewrite Z.shiftl_mul_pow2 by lia; lia).
    rewrite (lor_shiftl _ (s2 * 2 ^ 6) 12) by lia.
    replace ((s0 * 64 + s1) * 2 ^ 12 + s2 * 2 ^ 6) with (Z.shiftl ((s0 * 64 + s1) * 64 + s2) 6)
      by (rewrite Z.shiftl_mul_pow2 by lia; lia).
    rewrite lor_shiftl by lia. lia.
  Qed.

Lemma sextet_range (val k : Z) : 0 <= Z.land (Z.shiftr val k) 63 < 64.
  Proof. rewrite land_63. apply Z.mod_pos_bound. lia. Qed.

  (** Splitting a 24-bit value into six-bit values and packing them gives
      the value back. *)
Lemma split_pack (val : Z) :
    0 <= val < 2 ^ 24 ->
    Z.lor (Z.lor (Z.lor (Z.shiftl (Z.land (Z.shiftr val 18) 63) 18)
                        (Z.shiftl (Z.land (Z.shiftr val 12) 63) 12))
                 (Z.shiftl (Z.land (Z.shiftr val 6) 63) 6))
          (Z.land val 63) = val.
  Proof.
    intros Hval.
    replace (Z.land val 63) with (Z.land (Z.shiftr val 0) 63) by (rewrite Z.shiftr_0_r; reflexivity).
    rewrite pack_sextets by apply sextet_range.
    rewrite !land_63, !shiftr_div by lia.
    change (2 ^ 18) with 262144. change (2 ^ 12) with 4096.
    change (2 ^ 6) with 64. change (2 ^ 0) with 1. change (2 ^ 24) with 16777216 in Hval.
    Z.div_mod_to_equations. lia.
  Qed.

Lemma byte_of_Z_low (hi : Z) (b : byte) : byte_of_Z (hi * 256 + Z_of_byte b) = b.
  Proof.
    rewrite <- (byte_of_Z_of_byte b) at 2.
    unfold byte_of_Z. rewrite Z.add_comm, Z.mod_add by lia. reflexivity.
  Qed.

Lemma val3_bytes (a b c : byte) :
    Z.lor (Z.lor (Z.shiftl (Z_of_byte a) 16) (Z.shiftl (Z_of_byte b) 8)) (Z_of_byte c)
    = Z_of_byte a * 65536 + Z_of_byte b * 256 + Z_of_byte c.
  Proof. apply pack_bytes; apply Z_of_byte_range. Qed.

Lemma quantum_val (val : Z) (a b c : byte) (s2 s3 : list Z) :
    val = Z_of_byte a * 65536 + Z_of_byte b * 256 + Z_of_byte c ->
    nth 2 ([Z.land (Z.shiftr val 18) 63; Z.land (Z.shiftr val 12) 63] ++ s2 ++ s3) 0
      = Z.land (Z.shiftr val 6) 63 ->
    nth 3 ([Z.land (Z.shiftr val 18) 63; Z.land (Z.shiftr val 12) 63] ++ s2 ++ s3) 0
      = Z.land val 63 ->
    quantum ([Z.land (Z.shiftr val 18) 63; Z.land (Z.shiftr val 12) 63] ++ s2 ++ s3)
    = firstn (length ([0; 0] ++ s2 ++ s3) - 1) [a; b; c].
  Proof.
    intros Hval H2 H3.
    pose proof (Z_of_byte_range a). pose proof (Z_of_byte_range b).
    pose proof (Z_of_byte_range c).
    unfold quantum. rewrite H2, H3.
    cbn [nth app].
    rewrite split_pack by (change (2 ^ 24) with 16777216; lia).
    rewrite !shiftr_div by lia.
    change (2 ^ 16) with 65536. change (2 ^ 8) with 256. change (2 ^ 0) with 1.
    replace (val / 65536) with (0 * 256 + Z_of_byte a) by (Z.div_mod_to_equations; lia).
    replace (val / 256) with (Z_of_byte a * 256 + Z_of_byte b) by (Z.div_mod_to_equations; lia).
    replace (val / 1) with ((Z_of_byte a * 256 + Z_of_byte b) * 256 + Z_of_byte c)
      by (Z.div_mod_to_equations; lia).
    rewrite !byte_of_Z_low. reflexivity.
  Qed.

Lemma alphabet_encode (v : Z) : 0 <= v < 64 -> alphabet (encode v) = true.
  Proof.
    intros Hv. unfold alphabet. rewrite decodeMap_encode by exact Hv.
    apply negb_true_iff, Z.eqb_neq. lia.
  Qed.

Lemma decode_alphabet n c rest si dbuf :
    alphabet c = true ->
    decode n (c :: rest) si dbuf =
      if (length (dbuf ++ [decodeMap c]) =? 4)%nat
      then let '(o, e) := decode n rest (si + 1) [] in
           (quantum (dbuf ++ [decodeMap c]) ++ o, e)
      else decode n rest (si + 1) (dbuf ++ [decodeMap c]).
  Proof. intros Hc. cbn [decode]. unfold alphabet in Hc. rewrite Hc. reflexivity. Qed.

Lemma decode_newline n c rest si dbuf :
    is_newline c = true ->
    decode n (c :: rest) si dbuf = decode n rest (si + 1) dbuf.
  Proof.
    intros Hc. cbn [decode].
    assert (decodeMap c = 255) as ->.
    { unfold is_newline in Hc. apply orb_true_iff in Hc.
      destruct Hc as [Hc | Hc]; apply Byte.byte_dec_bl in Hc; subst c; reflexivity. }
    rewrite Hc. reflexivity.
  Qed.

  (** A padding character closes the quantum. *)
Lemma decode_pad n rest si dbuf :
    decode n (padChar :: rest) si dbuf =
      match length dbuf with
      | 0%nat | 1%nat => ([], Some (CorruptInputError si))
      | 2%nat =>
          let '(rest1, si1) := skip_newlines rest (si + 1) in
          match rest1 with
          | [] => ([], Some (CorruptInputError n))
          | c2 :: rest2 =>
              if negb (Byte.eqb c2 padChar)
              then ([], Some (CorruptInputError (si1 - 1)))
              else
                let '(rest3, si3) := skip_newlines rest2 (si1 + 1) in
                (quantum dbuf,
                 match rest3 with
                 | [] => None
                 | _ => Some (CorruptInputError si3)
                 end)
          end
      | _ =>
          let '(rest3, si3) := skip_newlines rest (si + 1) in
          (quantum dbuf,
           match rest3 with
           | [] => None
           | _ => Some (CorruptInputError si3)
           end)
      end.
  Proof. reflexivity. Qed.

Lemma quantum_one (a : byte) :
    let val := Z.shiftl (Z_of_byte a) 16 in
    quantum [Z.land (Z.shiftr val 18) 63; Z.land (Z.shiftr val 12) 63] = [a].
  Proof.
    intros val. pose proof (Z_of_byte_range a) as Ha.
    assert (Hval : val = Z_of_byte a * 65536 + Z_of_byte x00 * 256 + Z_of_byte x00).
    { subst val. rewrite Z.shiftl_mul_pow2 by lia. change (Z_of_byte x00) with 0. lia. }
    change (Z_of_byte x00) with 0 in Hval.
    apply (quantum_val val a x00 x00 [] []); [ exact Hval | | ]; cbn [app nth].
    - rewrite land_63, shiftr_div by lia. change (2 ^ 6) with 64.
      clearbody val. Z.div_mod_to_equations. lia.
    - rewrite land_63. clearbody val. Z.div_mod_to_equations. lia.
  Qed.

Lemma quantum_two (a b : byte) :
    let val := Z.lor (Z.shiftl (Z_of_byte a) 16) (Z.shiftl (Z_of_byte b) 8) in
    quantum [Z.land (Z.shiftr val 18) 63; Z.land (Z.shiftr val 12) 63;
             Z.land (Z.shiftr val 6) 63] = [a; b].
  Proof.
    intros val. pose proof (Z_of_byte_range a) as Ha. pose proof (Z_of_byte_range b) as Hb.
    assert (Hval : val = Z_of_byte a * 65536 + Z_of_byte b * 256 + Z_of_byte x00).
    { subst val. rewrite <- (Z.lor_0_r (Z.lor _ _)).
      rewrite pack_bytes by lia. change (Z_of_byte x00) with 0. lia. }
    change (Z_of_byte x00) with 0 in Hval.
    apply (quantum_val val a b x00 [Z.land (Z.shiftr val 6) 63] []);
      [ exact Hval | | ]; cbn [app nth].
    - reflexivity.
    - rewrite land_63. clearbody val. Z.div_mod_to_equations. lia.
  Qed.

Lemma quantum_three (a b c : byte) :
    let val := Z.lor (Z.lor (Z.shiftl (Z_of_byte a) 16) (Z.shiftl (Z_of_byte b) 8))
                     (Z_of_byte c) in
    quantum [Z.land (Z.shiftr val 18) 63; Z.land (Z.shiftr val 12) 63;
             Z.land (Z.shiftr val 6) 63; Z.land (Z.shiftr val 0) 63] = [a; b; c].
  Proof.
    intros val.
    apply (quantum_val val a b c [Z.land (Z.shiftr val 6) 63] [Z.land (Z.shiftr val 0) 63]);
      [ apply val3_bytes | | ]; cbn [app nth].
    - reflexivity.
    - rewrite Z.shiftr_0_r. reflexivity.
  Qed.

Lemma skip_newlines_pad rest si : skip_newlines (padChar :: rest) si = (padChar :: rest, si).
  Proof. reflexivity. Qed.

Ltac alphabet_steps :=
    repeat (rewrite decode_alphabet by (apply alphabet_encode, sextet_range);
            rewrite decodeMap_encode by apply sextet_range;
            cbn [app length Nat.eqb]).

  (** Decoding what [Encode] produced gives the bytes back, at any offset. *)
Lemma decode_Encode (p : list byte) :
    (forall n si, decode n (Encode p) si [] = (p, None))
    /\ (forall a n si, decode n (Encode (a :: p)) si [] = (a :: p, None))
    /\ (forall a b n si, decode n (Encode (a :: b :: p)) si [] = (a :: b :: p, None)).
  Proof.
    induction p as [| c p (IH0 & IH1 & IH2)].
    - split; [ reflexivity | split ].
      + intros a n si. cbn [Encode].
        alphabet_steps. rewrite decode_pad. cbn [length].
        rewrite skip_newlines_pad.
        change (negb (Byte.eqb padChar padChar)) with false. cbv iota.
        cbn [skip_newlines]. rewrite quantum_one. reflexivity.
      + intros a b n si. cbn [Encode].
        alphabet_steps. rewrite decode_pad. cbn [length skip_newlines].
        rewrite quantum_two. reflexivity.
    - split; [ intros n si; apply IH1 | split; [ intros a n si; apply IH2 | ] ].
      intros a b n si. cbn [Encode].
      set (val := Z.lor (Z.lor (Z.shiftl (Z_of_byte a) 16) (Z.shiftl (Z_of_byte b) 8))
                        (Z_of_byte c)).
      replace (encode (Z.land val 63)) with (encode (Z.land (Z.shiftr val 0) 63))
        by (rewrite Z.shiftr_0_r; reflexivity).
      alphabet_steps. rewrite IH0.
      subst val. rewrite quantum_three. reflexivity.
  Qed.

  (** [DecodeString] undoes [EncodeToString]. *)
Lemma DecodeString_EncodeToString (p : list byte) :
    DecodeString (EncodeToString p) = (p, None).
  Proof.
    unfold DecodeString, EncodeToString, Decode.
    rewrite list_byte_of_string_of_list_byte. apply decode_Encode.
  Qed.
End Base64Facts.

(** ** encoding/base64: the inputs the decoder accepts *)

Module Base64Syntax.
Import Base64 Base64Facts.

Abbreviation text := (filter (fun c => is_newline c = false)).

Lemma is_newline_not_alphabet c : is_newline c = true -> alphabet c = false.
  Proof.
    unfold is_newline. intros Hc. apply orb_true_iff in Hc.
    destruct Hc as [Hc | Hc]; apply Byte.byte_dec_bl in Hc; subst c; reflexivity.
  Qed.

Lemma is_pad_eq c : is_pad c = true -> c = padChar.
  Proof. apply Byte.byte_dec_bl. Qed.

Lemma alphabet_plain c : alphabet c = true -> is_newline c = false /\ is_pad c = false.
  Proof.
    intros Hc. split.
    - destruct (is_newline c) eqn:Hn; [ | reflexivity ].
      apply is_newline_not_alphabet in Hn. congruence.
    - destruct (is_pad c) eqn:Hp; [ | reflexivity ].
      apply is_pad_eq in Hp. subst c. discriminate Hc.
  Qed.

Lemma decode_invalid n c rest si dbuf :
    alphabet c = false -> is_newline c = false -> is_pad c = false ->
    decode n (c :: rest) si dbuf = ([], Some (CorruptInputError si)).
  Proof.
    intros Ha Hn Hp. cbn [decode]. unfold alphabet in Ha. rewrite Ha, Hn.
    unfold is_pad in Hp. rewrite Hp. reflexivity.
  Qed.

Lemma skip_newlines_text src si :
    text src = text (fst (skip_newlines src si))
    /\ match fst (skip_newlines src si) with
       | [] => True
       | c :: _ => is_newline c = false
       end.
  Proof.
    revert si. induction src as [| c src IH]; intros si; [ split; reflexivity | ].
    cbn [skip_newlines]. destruct (is_newline c) eqn:Hn.
    - rewrite filter_cons_False by congruence. apply IH.
    - split; [ reflexivity | exact Hn ].
  Qed.

Lemma quads_first a t : quads (a :: t) = true -> alphabet a = true.
  Proof.
    destruct t as [| b [| c [| d t]]]; cbn [quads]; try discriminate.
    intros H. apply andb_true_iff in H. destruct H as [H _].
    apply andb_true_iff in H. apply H.
  Qed.

Lemma quads_second a b t : quads (a :: b :: t) = true -> alphabet b = true.
  Proof.
    destruct t as [| c [| d t]]; cbn [quads]; try discriminate.
    intros H. apply andb_true_iff in H. destruct H as [H _].
    apply andb_true_iff in H. apply H.
  Qed.

  (** After the first padding character of a quantum with two values: a
      second one, and then nothing but line breaks. *)
Lemma accepts_pad2 n rest si dbuf a b :
    length dbuf = 2%nat -> alphabet a = true -> alphabet b = true ->
    snd (decode n (padChar :: rest) si dbuf) = None
    <-> quads (a :: b :: padChar :: text rest) = true.
  Proof.
    intros Hlen Ha Hb. rewrite decode_pad, Hlen.
    destruct (skip_newlines_text rest (si + 1)) as [Htext Hhead].
    destruct (skip_newlines rest (si + 1)) as [rest1 si1]. cbn [fst] in *.
    rewrite Htext. destruct rest1 as [| c2 rest2].
    - rewrite filter_nil. cbn. split; discriminate.
    - rewrite filter_cons_True by exact Hhead.
      destruct (skip_newlines_text rest2 (si1 + 1)) as [Htext2 Hhead2].
      destruct (skip_newlines rest2 (si1 + 1)) as [rest3 si3]. cbn [fst] in *.
      rewrite Htext2. cbn [quads]. rewrite Ha, Hb.
      change (alphabet padChar) with false.
      change (is_pad padChar) with true.
      change (Byte.eqb c2 padChar) with (is_pad c2).
      destruct (is_pad c2) eqn:Hp2; cbn [negb andb orb snd].
      + destruct rest3 as [| c3 rest3].
        * rewrite filter_nil. split; reflexivity.
        * rewrite filter_cons_True by exact Hhead2. split; discriminate.
      + destruct (text rest3); split; discriminate.
  Qed.

Lemma accepts_pad3 n rest si dbuf a b c :
    length dbuf = 3%nat -> alphabet a = true -> alphabet b = true -> alphabet c = true ->
    snd (decode n (padChar :: rest) si dbuf) = None
    <-> quads (a :: b :: c :: padChar :: text rest) = true.
  Proof.
    intros Hlen Ha Hb Hc. rewrite decode_pad, Hlen.
    destruct (skip_newlines_text rest (si + 1)) as [Htext Hhead].
    destruct (skip_newlines rest (si + 1)) as [rest3 si3]. cbn [fst] in *.
    rewrite Htext. cbn [quads]. rewrite Ha, Hb, Hc.
    change (alphabet padChar) with false. change (is_pad padChar) with true.
    cbn [andb orb snd].
    destruct rest3 as [| c3 rest3].
    - rewrite filter_nil. split; reflexivity.
    - rewrite filter_cons_True by exact Hhead. split; discriminate.
  Qed.

  (** The decoder reports no error exactly on the texts of the syntax;
      [pre] holds the characters of the quantum being read. *)
Lemma decode_accepts n src : forall si pre,
    (length pre < 4)%nat -> forallb alphabet pre = true ->
    snd (decode n src si (map decodeMap pre)) = None
    <-> quads (pre ++ text src) = true.
  Proof.
    induction src as [| c src IH]; intros si pre Hlen Hpre.
    - rewrite filter_nil, app_nil_r. cbn [decode].
      destruct pre as [| a [| b [| c0 [| d pre]]]]; cbn in Hlen |- *;
        try lia; split; discriminate || reflexivity.
    - destruct (alphabet c) eqn:Ha.
      + destruct (alphabet_plain c Ha) as [Hn Hp].
        rewrite filter_cons_True by exact Hn.
        rewrite decode_alphabet by exact Ha.
        rewrite length_app, length_map. cbn [length].
        destruct (Nat.eqb_spec (length pre + 1) 4) as [H4 | H4].
        * destruct pre as [| a [| b [| c0 [| d pre]]]]; cbn in H4; try lia.
          cbn in Hpre. apply andb_true_iff in Hpre. destruct Hpre as [Ha0 Hpre].
          apply andb_true_iff in Hpre. destruct Hpre as [Hb0 Hpre].
          apply andb_true_iff in Hpre. destruct Hpre as [Hc0 _].
          specialize (IH (si + 1) [] ltac:(cbn; lia) eq_refl).
          cbn [map app] in IH |- *.
          destruct (decode n src (si + 1) []) as [o e]. cbn [snd] in *.
          rewrite IH. cbn [quads]. rewrite Ha0, Hb0, Hc0, Ha.
          rewrite Hp.
          cbn [andb]. rewrite andb_false_r.
          destruct (quads (text src)), (text src); cbn; split; congruence.
        * specialize (IH (si + 1) (pre ++ [c])).
          rewrite map_app in IH. cbn [map] in IH.
          rewrite IH; [ rewrite <- app_assoc; reflexivity | | ].
          -- rewrite length_app. cbn [length]. lia.
          -- rewrite forallb_app, Hpre. cbn. rewrite Ha. reflexivity.
      + destruct (is_newline c) eqn:Hn.
        * rewrite decode_newline by exact Hn.
          rewrite filter_cons_False by congruence. apply IH; assumption.
        * rewrite filter_cons_True by exact Hn.
          destruct (is_pad c) eqn:Hp.
          -- apply is_pad_eq in Hp. subst c.
             destruct pre as [| a [| b [| c0 [| d pre]]]]; cbn in Hlen; try lia.
             ++ rewrite decode_pad. cbn [map length app snd].
                split; [ discriminate | ].
                intros H. apply quads_first in H. discriminate H.
             ++ rewrite decode_pad. cbn [map length app snd].
                split; [ discriminate | ].
                intros H. apply quads_second in H. discriminate H.
             ++ cbn in Hpre. apply andb_true_iff in Hpre. destruct Hpre as [Ha0 Hpre].
                apply andb_true_iff in Hpre. destruct Hpre as [Hb0 _].
                apply accepts_pad2; [ reflexivity | assumption | assumption ].
             ++ cbn in Hpre. apply andb_true_iff in Hpre. destruct Hpre as [Ha0 Hpre].
                apply andb_true_iff in Hpre. destruct Hpre as [Hb0 Hpre].
                apply andb_true_iff in Hpre. destruct Hpre as [Hc0 _].
                apply accepts_pad3; [ reflexivity | assumption .. ].
          -- rewrite decode_invalid by assumption. cbn [snd].
             split; [ discriminate | ].
             destruct pre as [| a [| b [| c0 [| d pre]]]]; cbn in Hlen; try lia;
               cbn [app]; intros H.
             ++ apply quads_first in H. congruence.
             ++ apply quads_second in H. congruence.
             ++ destruct (text src) as [| d t]; cbn [quads] in H; [ discriminate | ].
                rewrite Ha, Hp in H. cbn [andb orb] in H.
                destruct t; rewrite andb_false_r in H; discriminate.
             ++ cbn [quads] in H. rewrite Ha, Hp in H.
                rewrite !andb_false_r in H. cbn [andb orb] in H.
                destruct (text src); rewrite andb_false_r in H; discriminate.
  Qed.

  (** [Decode] succeeds exactly on syntactically valid standard base64. *)
Lemma Decode_accepts (src : list byte) :
    snd (Decode src) = None <-> std_base64_syntax src = true.
  Proof. apply (decode_accepts _ src 0 []); [ cbn; lia | reflexivity ]. Qed.
End Base64Syntax.

(** ** The handler *)

Section Handler.

Context {S : Type} `{CacheStore S}.
Variable HashForGrouping : list byte -> string * option error.
Variable ParseList : Header -> string -> list string.

  (** [validateCache] touches nothing but the cache. *)
Lemma validateCache_frame (a : Api S) (url : string) :
    let a1 := snd (validateCache a url) in
    cfg a1 = cfg a /\ requestStorage a1 = requestStorage a /\ projects a1 = projects a
    /\ ignoredItems a1 = ignoredItems a /\ processedItems a1 = processedItems a.
  Proof.
    unfold validateCache.
    destruct (UrlCacheExpiration (cfg a) >? 0); [ | cbn; tauto ].
    destruct (cache_Get url (cache a)) as [[count e] c1].
    destruct (cache_Incr url _) as [[count' e'] c3]. cbn. tauto.
  Qed.

  (** With deduplication on, the count is the one [Incr] returns. *)
Lemma validateCache_on (a : Api S) (url : string) :
    0 < UrlCacheExpiration (cfg a) ->
    let got := cache_Get url (cache a) in
    let c2 := if fst (fst got) =? 0
              then snd (cache_Set url (window (cfg a)) (snd got)) else snd got in
    validateCache a url
    = (fst (fst (cache_Incr url c2)), set_cache a (snd (cache_Incr url c2))).
  Proof.
    intros Httl. unfold validateCache, window.
    destruct (Z.gtb_spec (UrlCacheExpiration (cfg a)) 0) as [_ | Hle]; [ | lia ].
    cbn zeta.
    destruct (cache_Get url (cache a)) as [[count e] c1]. cbn [fst snd].
    destruct (cache_Incr url _) as [[count' e'] c3]. reflexivity.
  Qed.

  (** With deduplication off, the cache is not consulted. *)
Lemma validateCache_off (a : Api S) (url : string) :
    UrlCacheExpiration (cfg a) <= 0 -> validateCache a url = (0, a).
  Proof.
    intros Httl. unfold validateCache.
    destruct (Z.gtb_spec (UrlCacheExpiration (cfg a)) 0) as [Hgt | _]; [ lia | reflexivity ].
  Qed.

Lemma response_headers (count : Z) (tag : string) :
    let w := WriteHeader
               (SetHeader (SetHeader newResponseWriter "X-CYCLOPS-CACHE-COUNT"
                                     (strconv.FormatInt count))
                          "X-CYCLOPS-STATUS" tag) StatusNoContent in
    w_Status w = Some StatusNoContent
    /\ cache_count w = Some [strconv.FormatInt count]
    /\ status_tag w = Some [tag].
  Proof.
    cbn zeta. unfold WriteHeader, SetHeader, cache_count, status_tag, Header_Set.
    cbn [w_Status w_Header newResponseWriter]. unfold Header.
    split; [ reflexivity | split ].
    - rewrite lookup_insert_ne by (vm_compute; discriminate).
      apply lookup_insert_eq.
    - apply lookup_insert_eq.
  Qed.

  (** What the handler does with a validated request whose body was read:
      the count of [validateCache] against the threshold decides. *)
Lemma apiHandler_decides (a : Api S) (r : Request) (projectId : Z) (body : list byte) :
    validated ParseList a r projectId ->
    getRequestBody r = (body, None) ->
    let key := cacheKey (Vars r) (fst (HashForGrouping body)) in
    let count := fst (validateCache a key) in
    let '(w', a', _) := apiHandler HashForGrouping ParseList a newResponseWriter r in
    cache a' = cache (snd (validateCache a key))
    /\ if count >? int64 (MaxCacheUses (cfg a))
       then ignored a a' w' count
       else admitted a a' w' count projectId (message_of r projectId body).
  Proof.
    intros [Hid Hok] Hbody. cbn zeta. unfold apiHandler.
    rewrite Hid, Hok, Hbody. cbn [negb].
    destruct (HashForGrouping body) as [exceptionHash herr]. cbn [fst].
    pose proof (validateCache_frame a (cacheKey (Vars r) exceptionHash)) as Hframe.
    destruct (validateCache a (cacheKey (Vars r) exceptionHash)) as [count a1].
    cbn [fst snd] in *. destruct Hframe as (Hcfg & Hq & _ & Hign & Hproc).
    rewrite Hcfg.
    destruct (count >? int64 (MaxCacheUses (cfg a))).
    - split; [ reflexivity | ].
      destruct (response_headers count "IGNORED") as (Hs & Hc & Ht).
      unfold ignored. cbn [add_ignoredItems ignoredItems processedItems requestStorage].
      rewrite Hign, Hproc, Hq. tauto.
    - split; [ reflexivity | ].
      destruct (response_headers count "PROCESSED") as (Hs & Hc & Ht).
      unfold admitted, processRequest, Put, message_of.
      cbn [add_processedItems ignoredItems processedItems requestStorage].
      rewrite Hign, Hproc, Hq. tauto.
  Qed.

  (** The log of such a request: the request line, the hash failure if
      any, the cache key and the origin URL. *)
Lemma apiHandler_log (a : Api S) (r : Request) (projectId : Z) (body : list byte) :
    validated ParseList a r projectId ->
    getRequestBody r = (body, None) ->
    snd (apiHandler HashForGrouping ParseList a newResponseWriter r)
    = logRequest r
      ++ match snd (HashForGrouping body) with
         | Some err => [LogErrorf "Unable to calculate a hash for the request: %s" err]
         | None => []
         end
      ++ [LogDebugf "Cache Key: %s" (cacheKey (Vars r) (fst (HashForGrouping body)));
          LogDebugf "Origin URL: %s" (originUrl r)].
  Proof.
    intros [Hid Hok] Hbody. unfold apiHandler.
    rewrite Hid, Hok, Hbody. cbn [negb].
    destruct (HashForGrouping body) as [exceptionHash herr]. cbn [fst snd].
    destruct (validateCache a (cacheKey (Vars r) exceptionHash)) as [count a1].
    destruct (count >? int64 (MaxCacheUses (cfg a1))); reflexivity.
  Qed.

End Handler.

(** ** The admission decision *)

(** C1, amended.  For every request that passes project validation and
    whose body is read without error, when the dedup TTL is positive: the
    event is ignored if and only if the count returned by the cache
    increment is strictly greater than the maximum-uses threshold.  In the
    ignore case the ignored counter goes up by one and nothing is queued;
    otherwise the processed counter goes up by one and the message is put
    on the delivery queue.  Both outcomes answer 204 with the count and the
    PROCESSED/IGNORED tag. *)
Theorem C1_admission_decision {S : Type} `{CacheStore S}
    (HashForGrouping : list byte -> string * option error)
    (ParseList : Header -> string -> list string)
    (a : Api S) (r : Request) (projectId : Z) (body : list byte) :
  validated ParseList a r projectId ->
  getRequestBody r = (body, None) ->
  0 < UrlCacheExpiration (cfg a) ->
  let key := cacheKey (Vars r) (fst (HashForGrouping body)) in
  let got := cache_Get key (cache a) in
  let c2 := if fst (fst got) =? 0
            then snd (cache_Set key (window (cfg a)) (snd got)) else snd got in
  let count := fst (fst (cache_Incr key c2)) in
  let '(w', a', _) := apiHandler HashForGrouping ParseList a newResponseWriter r in
  if count >? int64 (MaxCacheUses (cfg a))
  then ignored a a' w' count
  else admitted a a' w' count projectId (message_of r projectId body).
Proof.
  intros Hval Hbody Httl. cbn zeta.
  pose proof (apiHandler_decides HashForGrouping ParseList a r projectId body Hval Hbody) as Hd.
  cbn zeta in Hd.
  rewrite (validateCache_on a _ Httl) in Hd. cbn [fst snd] in Hd.
  destruct (apiHandler HashForGrouping ParseList a newResponseWriter r) as [[w' a'] lg].
  apply Hd.
Qed.

Lemma C1_admission_decision_witness :
  let a := Sample.api 1 60 MemCache.empty in
  let r := Sample.post (list_byte_of_string "{}") in
  let '(w', a', _) := apiHandler Sample.hash_id header.ParseList a newResponseWriter r in
  admitted a a' w' 1 1 (message_of r 1 (list_byte_of_string "{}")).
Proof.
  exact (C1_admission_decision Sample.hash_id header.ParseList
           (Sample.api 1 60 MemCache.empty) (Sample.post (list_byte_of_string "{}"))
           1 (list_byte_of_string "{}")
           (conj eq_refl eq_refl) eq_refl eq_refl).
Defined.

(** C1 as stated fails: a request that passes project validation but whose
    body cannot be read is answered 404, neither ignored nor admitted. *)
Lemma C1_body_read_failure :
  let a := Sample.api 1 60 MemCache.empty in
  let r := Sample.post_broken in
  validated header.ParseList a r 1
  /\ 0 < UrlCacheExpiration (cfg a)
  /\ let '(w', a', _) := apiHandler Sample.hash_id header.ParseList a newResponseWriter r in
     w_Status w' = Some StatusNotFound
     /\ a' = a
     /\ ~ (exists count, ignored a a' w' count \/ exists m, admitted a a' w' count 1 m).
Proof.
  cbn zeta. split; [ split; reflexivity | split; [ reflexivity | ] ].
  set (res := apiHandler _ _ _ _ _). vm_compute in res. subst res. cbv iota beta.
  split; [ reflexivity | split; [ reflexivity | ] ].
  intros [count [Hi | [m Ha]]].
  - destruct Hi as [Hs _]. discriminate Hs.
  - destruct Ha as [Hs _]. discriminate Hs.
Qed.

(** C4, amended.  When TTL-based deduplication is disabled (TTL <= 0) the
    cache is not touched and the count is 0; every request that passes
    project validation and whose body is read is admitted (processed and
    handed to delivery) for every maximum-uses threshold that is not
    negative. *)
Theorem C4_dedup_disabled_admits {S : Type} `{CacheStore S}
    (HashForGrouping : list byte -> string * option error)
    (ParseList : Header -> string -> list string)
    (a : Api S) (r : Request) (projectId : Z) (body : list byte) :
  validated ParseList a r projectId ->
  getRequestBody r = (body, None) ->
  UrlCacheExpiration (cfg a) <= 0 ->
  0 <= int64 (MaxCacheUses (cfg a)) ->
  let '(w', a', _) := apiHandler HashForGrouping ParseList a newResponseWriter r in
  cache a' = cache a
  /\ admitted a a' w' 0 projectId (message_of r projectId body).
Proof.
  intros Hval Hbody Httl Hmax.
  pose proof (apiHandler_decides HashForGrouping ParseList a r projectId body Hval Hbody) as Hd.
  cbn zeta in Hd. rewrite (validateCache_off a _ Httl) in Hd. cbn [fst snd] in Hd.
  destruct (apiHandler HashForGrouping ParseList a newResponseWriter r) as [[w' a'] lg].
  destruct (Z.gtb_spec 0 (int64 (MaxCacheUses (cfg a)))) as [Hlt | _]; [ lia | exact Hd ].
Qed.

Lemma C4_dedup_disabled_admits_witness :
  let a := Sample.api 0 0 MemCache.empty in
  let r := Sample.post (list_byte_of_string "{}") in
  let '(w', a', _) := apiHandler Sample.hash_id header.ParseList a newResponseWriter r in
  cache a' = cache a
  /\ admitted a a' w' 0 1 (message_of r 1 (list_byte_of_string "{}")).
Proof.
  refine (C4_dedup_disabled_admits Sample.hash_id header.ParseList
            (Sample.api 0 0 MemCache.empty) (Sample.post (list_byte_of_string "{}"))
            1 (list_byte_of_string "{}") (conj eq_refl eq_refl) eq_refl _ _).
  - vm_compute. discriminate.
  - vm_compute. discriminate.
Defined.

(** C4 as stated fails for a negative threshold: with deduplication
    disabled the count 0 exceeds it, and the validated request is ignored. *)
Lemma C4_negative_threshold :
  let a := Sample.api (-1) 0 MemCache.empty in
  let r := Sample.post (list_byte_of_string "{}") in
  validated header.ParseList a r 1
  /\ UrlCacheExpiration (cfg a) <= 0
  /\ let '(w', a', _) := apiHandler Sample.hash_id header.ParseList a newResponseWriter r in
     ignored a a' w' 0
     /\ ~ (exists count m, admitted a a' w' count 1 m).
Proof.
  cbn zeta. split; [ split; reflexivity | split; [ vm_compute; discriminate | ] ].
  set (res := apiHandler _ _ _ _ _). vm_compute in res. subst res. cbv iota beta.
  split.
  - repeat split.
  - intros (count & m & Ha). destruct Ha as (_ & _ & Ht & _).
    vm_compute in Ht. discriminate Ht.
Qed.

(** C5, amended.  When the hash computation fails for an event, the
    failure is logged and not shown to the client; the event then goes
    through the same admission decision as any other, under the cache key
    made of the project id and the identifier returned along with the
    error: it is admitted if that key's count does not exceed the
    threshold and ignored otherwise. *)
Theorem C5_hash_failure_logged {S : Type} `{CacheStore S}
    (HashForGrouping : list byte -> string * option error)
    (ParseList : Header -> string -> list string)
    (a : Api S) (r : Request) (projectId : Z) (body : list byte)
    (id : string) (err : error) :
  validated ParseList a r projectId ->
  getRequestBody r = (body, None) ->
  HashForGrouping body = (id, Some err) ->
  let count := fst (validateCache a (cacheKey (Vars r) id)) in
  let '(w', a', lg) := apiHandler HashForGrouping ParseList a newResponseWriter r in
  In (LogErrorf "Unable to calculate a hash for the request: %s" err) lg
  /\ if count >? int64 (MaxCacheUses (cfg a))
     then ignored a a' w' count
     else admitted a a' w' count projectId (message_of r projectId body).
Proof.
  intros Hval Hbody Hhash. cbn zeta.
  pose proof (apiHandler_decides HashForGrouping ParseList a r projectId body Hval Hbody) as Hd.
  pose proof (apiHandler_log HashForGrouping ParseList a r projectId body Hval Hbody) as Hl.
  cbn zeta in Hd. rewrite Hhash in Hd, Hl. cbn [fst snd] in Hd, Hl.
  destruct (apiHandler HashForGrouping ParseList a newResponseWriter r) as [[w' a'] lg].
  cbn [snd] in Hl. subst lg. split; [ | apply Hd ].
  apply in_or_app. right. apply in_or_app. left. left. reflexivity.
Qed.

Lemma C5_hash_failure_logged_witness :
  let a := Sample.api 1 60 MemCache.empty in
  let r := Sample.post (list_byte_of_string "{}") in
  let count := fst (validateCache a (cacheKey (Vars r) EmptyString)) in
  let '(w', a', lg) := apiHandler Sample.hash_fails header.ParseList a newResponseWriter r in
  In (LogErrorf "Unable to calculate a hash for the request: %s"
                (HashError "no exception in event")) lg
  /\ if count >? int64 (MaxCacheUses (cfg a))
     then ignored a a' w' count
     else admitted a a' w' count 1 (message_of r 1 (list_byte_of_string "{}")).
Proof.
  exact (C5_hash_failure_logged Sample.hash_fails header.ParseList
           (Sample.api 1 60 MemCache.empty) (Sample.post (list_byte_of_string "{}"))
           1 (list_byte_of_string "{}") EmptyString (HashError "no exception in event")
           (conj eq_refl eq_refl) eq_refl eq_refl).
Defined.

(** C5 as stated fails: with a grouping oracle that fails on every event,
    threshold 1 and a 60 s window, the second submission of an event is
    ignored and only the first reaches the delivery queue. *)
Lemma C5_hash_failure_still_deduplicated :
  let a := Sample.api 1 60 MemCache.empty in
  let r := Sample.post (list_byte_of_string "{}") in
  validated header.ParseList a r 1
  /\ snd (Sample.hash_fails (list_byte_of_string "{}")) <> None
  /\ let '(ws, a') := submissions Sample.hash_fails header.ParseList a r [0; 1] in
     map status_tag ws = [Some ["PROCESSED"%string]; Some ["IGNORED"%string]]
     /\ length (requestStorage a') = 1%nat.
Proof.
  cbn zeta. split; [ split; reflexivity | split; [ discriminate | ] ].
  vm_compute. split; reflexivity.
Qed.

(** ** An unreachable store *)

Lemma validateCache_unreachable (a : Api MemCache.Store) (url : string) :
  MemCache.reachable (cache a) = false ->
  fst (validateCache a url) = 0 /\ cache (snd (validateCache a url)) = cache a.
Proof.
  intros Hdown. unfold validateCache.
  destruct (UrlCacheExpiration (cfg a) >? 0); [ | split; reflexivity ].
  cbn [cache_Get cache_Set cache_Incr MemCache.store].
  unfold MemCache.get. rewrite Hdown. cbn [Z.eqb snd].
  unfold MemCache.setIfAbsent. rewrite Hdown. cbn [snd].
  unfold MemCache.incrementAndGet. rewrite Hdown. split; reflexivity.
Qed.

(** C6, amended.  When the cache store cannot be reached, every cache
    operation fails with the zero count, the errors are dropped and the
    count is taken as 0: a validated event whose body is read is admitted
    for every threshold that is not negative, and the store is left as it
    was. *)
Theorem C6_store_unavailable_admits
    (HashForGrouping : list byte -> string * option error)
    (ParseList : Header -> string -> list string)
    (a : Api MemCache.Store) (r : Request) (projectId : Z) (body : list byte) :
  validated ParseList a r projectId ->
  getRequestBody r = (body, None) ->
  MemCache.reachable (cache a) = false ->
  0 <= int64 (MaxCacheUses (cfg a)) ->
  let '(w', a', _) := apiHandler HashForGrouping ParseList a newResponseWriter r in
  cache a' = cache a
  /\ admitted a a' w' 0 projectId (message_of r projectId body).
Proof.
  intros Hval Hbody Hdown Hmax.
  pose proof (apiHandler_decides HashForGrouping ParseList a r projectId body Hval Hbody) as Hd.
  cbn zeta in Hd.
  destruct (validateCache_unreachable a
              (cacheKey (Vars r) (fst (HashForGrouping body))) Hdown) as [Hcount Hcache].
  rewrite Hcount, Hcache in Hd.
  destruct (apiHandler HashForGrouping ParseList a newResponseWriter r) as [[w' a'] lg].
  destruct (Z.gtb_spec 0 (int64 (MaxCacheUses (cfg a)))) as [Hlt | _]; [ lia | exact Hd ].
Qed.

Lemma C6_store_unavailable_admits_witness :
  let a := Sample.api 0 60 Sample.unreachable in
  let r := Sample.post (list_byte_of_string "{}") in
  let '(w', a', _) := apiHandler Sample.hash_id header.ParseList a newResponseWriter r in
  cache a' = cache a
  /\ admitted a a' w' 0 1 (message_of r 1 (list_byte_of_string "{}")).
Proof.
  refine (C6_store_unavailable_admits Sample.hash_id header.ParseList
            (Sample.api 0 60 Sample.unreachable) (Sample.post (list_byte_of_string "{}"))
            1 (list_byte_of_string "{}") (conj eq_refl eq_refl) eq_refl eq_refl _).
  vm_compute. discriminate.
Defined.

(** C6 as stated fails for a negative threshold: the count 0 of the
    unreachable store exceeds it, and the validated event is ignored. *)
Lemma C6_negative_threshold :
  let a := Sample.api (-1) 60 Sample.unreachable in
  let r := Sample.post (list_byte_of_string "{}") in
  validated header.ParseList a r 1
  /\ MemCache.reachable (cache a) = false
  /\ fst (MemCache.get "1{}" (cache a)) = (0, Some StoreUnavailable)
  /\ fst (MemCache.incrementAndGet "1{}" (cache a)) = (0, Some StoreUnavailable)
  /\ let '(w', a', _) := apiHandler Sample.hash_id header.ParseList a newResponseWriter r in
     ignored a a' w' 0
     /\ ~ (exists count m, admitted a a' w' count 1 m).
Proof.
  cbn zeta. split; [ split; reflexivity | ].
  split; [ reflexivity | split; [ reflexivity | split; [ reflexivity | ] ] ].
  set (res := apiHandler _ _ _ _ _). vm_compute in res. subst res. cbv iota beta.
  split.
  - repeat split.
  - intros (count & m & Ha). destruct Ha as (_ & _ & Ht & _).
    vm_compute in Ht. discriminate Ht.
Qed.

(** ** Repeated submissions within one window *)

Section Window.

Variable HashForGrouping : list byte -> string * option error.
Variable ParseList : Header -> string -> list string.

  (** The handler changes neither the configuration nor the projects. *)
Lemma apiHandler_frame {S : Type} `{CacheStore S} (a : Api S) (w : ResponseWriter)
      (r : Request) :
    let a' := snd (fst (apiHandler HashForGrouping ParseList a w r)) in
    cfg a' = cfg a /\ projects a' = projects a.
  Proof.
    cbn zeta. unfold apiHandler.
    destruct (strconv.Atoi _) as [projectId [err |]]; [ split; reflexivity | ].
    destruct (negb _); [ split; reflexivity | ].
    destruct (getRequestBody r) as [bodyBytes [err |]]; [ split; reflexivity | ].
    destruct (HashForGrouping bodyBytes) as [exceptionHash herr].
    pose proof (validateCache_frame a (cacheKey (Vars r) exceptionHash)) as Hf.
    destruct (validateCache a (cacheKey (Vars r) exceptionHash)) as [count a1].
    cbn [snd] in Hf. destruct Hf as (Hcfg & _ & Hp & _).
    destruct (count >? _); cbn; split; assumption.
  Qed.

  (** A live entry is incremented in place. *)
Lemma validateCache_live (a : Api MemCache.Store) (key : string) (e : MemCache.CacheEntry) :
    MemCache.reachable (cache a) = true ->
    MemCache.current (cache a) key = Some e ->
    0 < UrlCacheExpiration (cfg a) ->
    let c := int64 (MemCache.count e + 1) in
    validateCache a key
    = (c, set_cache a
            (MemCache.set_entries (cache a)
               (<[key := {| MemCache.count := c; MemCache.expiresAt := MemCache.expiresAt e |}]>
                  (MemCache.entries (cache a))))).
  Proof.
    intros Hup Hcur Httl. rewrite (validateCache_on a key Httl).
    cbn [cache_Get cache_Set cache_Incr MemCache.store].
    unfold MemCache.get. rewrite Hup, Hcur. cbn [fst snd].
    assert (Hc2 : (if MemCache.count e =? 0
                   then snd (MemCache.setIfAbsent key (window (cfg a)) (cache a))
                   else cache a) = cache a).
    { destruct (MemCache.count e =? 0); [ | reflexivity ].
      unfold MemCache.setIfAbsent. rewrite Hup, Hcur. reflexivity. }
    rewrite Hc2. unfold MemCache.incrementAndGet. rewrite Hup, Hcur. reflexivity.
  Qed.

  (** A key without a live entry gets one, expiring a window from now, and
      counts one. *)
Lemma validateCache_fresh (a : Api MemCache.Store) (key : string) :
    MemCache.reachable (cache a) = true ->
    MemCache.current (cache a) key = None ->
    0 < UrlCacheExpiration (cfg a) ->
    0 < window (cfg a) ->
    validateCache a key
    = (1, set_cache a
            (MemCache.set_entries (cache a)
               (<[key := {| MemCache.count := 1;
                            MemCache.expiresAt :=
                              Some (MemCache.clock (cache a) + window (cfg a)) |}]>
                  (MemCache.entries (cache a))))).
  Proof.
    intros Hup Hcur Httl Hwin. rewrite (validateCache_on a key Httl).
    cbn [cache_Get cache_Set cache_Incr MemCache.store].
    unfold MemCache.get. rewrite Hup, Hcur. cbn [fst snd Z.eqb].
    unfold MemCache.setIfAbsent. rewrite Hup, Hcur. cbn [snd].
    unfold MemCache.incrementAndGet, MemCache.current, MemCache.set_entries.
    cbn [MemCache.reachable MemCache.entries MemCache.clock]. rewrite Hup.
    rewrite lookup_insert_eq. unfold MemCache.live. cbn [MemCache.expiresAt MemCache.count].
    destruct (Z.ltb_spec (MemCache.clock (cache a)) (MemCache.clock (cache a) + window (cfg a)))
      as [_ | Hge]; [ | lia ].
    cbn [fst snd]. rewrite insert_insert_eq. reflexivity.
  Qed.


Variable r : Request.
Variable projectId : Z.
Variable body : list byte.
Hypothesis Hbody : getRequestBody r = (body, None).

Let key : string := cacheKey (Vars r) (fst (HashForGrouping body)).
Let msg : Z * Message := (projectId, message_of r projectId body).

  (** One submission, given what [validateCache] returns at that instant. *)
Lemma submit_at_decides (a : Api MemCache.Store) (t : Z) :
    validated ParseList a r projectId ->
    let a0 := set_cache a (MemCache.at_time t (cache a)) in
    let count := fst (validateCache a0 key) in
    let threshold := int64 (MaxCacheUses (cfg a)) in
    let '(w, a') := submit_at HashForGrouping ParseList a r t in
    status_tag w = tag_of count threshold
    /\ requestStorage a'
       = requestStorage a ++ (if count >? threshold then [] else [msg])
    /\ cache a' = cache (snd (validateCache a0 key))
    /\ cfg a' = cfg a /\ projects a' = projects a.
  Proof.
    intros Hval. cbn zeta. unfold submit_at.
    set (a0 := set_cache a (MemCache.at_time t (cache a))).
    assert (Hval0 : validated ParseList a0 r projectId) by exact Hval.
    pose proof (apiHandler_decides HashForGrouping ParseList a0 r projectId body Hval0 Hbody)
      as Hd.
    pose proof (apiHandler_frame a0 newResponseWriter r) as Hf.
    cbn zeta in Hd, Hf. fold key in Hd.
    destruct (apiHandler HashForGrouping ParseList a0 newResponseWriter r) as [[w a'] lg].
    cbn [fst snd] in Hf. destruct Hf as [Hcfg Hproj].
    destruct Hd as [Hcache Hd]. unfold ignored, admitted in Hd.
    change (cfg a0) with (cfg a) in *. change (projects a0) with (projects a) in *.
    change (requestStorage a0) with (requestStorage a) in *.
    unfold tag_of.
    destruct (fst (validateCache a0 key) >? int64 (MaxCacheUses (cfg a))).
    - destruct Hd as (_ & _ & Ht & _ & _ & Hq).
      rewrite Hq, app_nil_r. repeat split; first [ assumption | reflexivity ].
    - destruct Hd as (_ & _ & Ht & _ & _ & Hq).
      rewrite Hq. repeat split; first [ assumption | reflexivity ].
  Qed.

Lemma submit_at_live (a : Api MemCache.Store) (t k deadline : Z) :
    validated ParseList a r projectId ->
    0 < UrlCacheExpiration (cfg a) ->
    counted key a k deadline ->
    t < deadline ->
    0 <= k < 2 ^ 63 - 1 ->
    let threshold := int64 (MaxCacheUses (cfg a)) in
    let '(w, a') := submit_at HashForGrouping ParseList a r t in
    status_tag w = tag_of (k + 1) threshold
    /\ requestStorage a'
       = requestStorage a ++ (if k + 1 >? threshold then [] else [msg])
    /\ cfg a' = cfg a /\ projects a' = projects a
    /\ counted key a' (k + 1) deadline.
  Proof.
    intros Hval Httl [Hup Hent] Ht Hk. cbn zeta.
    pose proof (submit_at_decides a t Hval) as Hs. cbn zeta in Hs.
    set (a0 := set_cache a (MemCache.at_time t (cache a))) in *.
    assert (Hcur : MemCache.current (cache a0) key
                   = Some {| MemCache.count := k; MemCache.expiresAt := Some deadline |}).
    { unfold MemCache.current. cbn. rewrite Hent. unfold MemCache.live. cbn.
      destruct (Z.ltb_spec t deadline); [ reflexivity | lia ]. }
    rewrite (validateCache_live a0 key _ Hup Hcur Httl) in Hs.
    cbn [fst snd MemCache.count MemCache.expiresAt] in Hs.
    rewrite (int64_small (k + 1)) in Hs by lia.
    destruct (submit_at HashForGrouping ParseList a r t) as [w a'].
    destruct Hs as (Htag & Hq & Hcache & Hcfg & Hproj).
    split; [ exact Htag | split; [ exact Hq | split; [ exact Hcfg | split; [ exact Hproj | ] ] ] ].
    unfold counted. rewrite Hcache. cbn. split; [ exact Hup | apply lookup_insert_eq ].
  Qed.

Lemma submit_at_fresh (a : Api MemCache.Store) (t : Z) :
    validated ParseList a r projectId ->
    0 < UrlCacheExpiration (cfg a) ->
    0 < window (cfg a) ->
    MemCache.reachable (cache a) = true ->
    MemCache.current (MemCache.at_time t (cache a)) key = None ->
    let threshold := int64 (MaxCacheUses (cfg a)) in
    let '(w, a') := submit_at HashForGrouping ParseList a r t in
    status_tag w = tag_of 1 threshold
    /\ requestStorage a'
       = requestStorage a ++ (if 1 >? threshold then [] else [msg])
    /\ cfg a' = cfg a /\ projects a' = projects a
    /\ counted key a' 1 (t + window (cfg a)).
  Proof.
    intros Hval Httl Hwin Hup Hcur. cbn zeta.
    pose proof (submit_at_decides a t Hval) as Hs. cbn zeta in Hs.
    set (a0 := set_cache a (MemCache.at_time t (cache a))) in *.
    rewrite (validateCache_fresh a0 key Hup Hcur Httl Hwin) in Hs.
    cbn [fst snd] in Hs.
    destruct (submit_at HashForGrouping ParseList a r t) as [w a'].
    destruct Hs as (Htag & Hq & Hcache & Hcfg & Hproj).
    split; [ exact Htag | split; [ exact Hq | split; [ exact Hcfg | split; [ exact Hproj | ] ] ] ].
    unfold counted. rewrite Hcache. cbn. split; [ exact Hup | apply lookup_insert_eq ].
  Qed.

  (** Further submissions on a live entry holding [k]: the next
      [threshold - k] are admitted, the rest ignored. *)
Lemma submissions_counted (times : list Z) : forall (a : Api MemCache.Store) (k deadline : Z),
    validated ParseList a r projectId ->
    0 < UrlCacheExpiration (cfg a) ->
    counted key a k deadline ->
    Forall (fun t => t < deadline) times ->
    0 <= k -> k + Z.of_nat (length times) < 2 ^ 63 ->
    let m := Nat.min (length times) (Z.to_nat (int64 (MaxCacheUses (cfg a)) - k)) in
    let '(ws, a') := submissions HashForGrouping ParseList a r times in
    map status_tag ws
    = replicate m (Some ["PROCESSED"%string])
      ++ replicate (length times - m) (Some ["IGNORED"%string])
    /\ requestStorage a' = requestStorage a ++ replicate m msg.
  Proof.
    induction times as [| t times IH]; intros a k deadline Hval Httl Hcnt Hall Hk Hn.
    - cbn. rewrite app_nil_r. split; reflexivity.
    - cbn zeta. cbn [submissions]. cbn [length] in Hn |- *.
      apply Forall_cons in Hall. destruct Hall as [Ht Hall].
      pose proof (submit_at_live a t k deadline Hval Httl Hcnt Ht ltac:(lia)) as Hs.
      cbn zeta in Hs.
      destruct (submit_at HashForGrouping ParseList a r t) as [w a1].
      destruct Hs as (Htag & Hq & Hcfg & Hproj & Hcnt1).
      assert (Hval1 : validated ParseList a1 r projectId).
      { destruct Hval as [Hid Hok]. split; [ exact Hid | rewrite Hproj; exact Hok ]. }
      specialize (IH a1 (k + 1) deadline Hval1 ltac:(rewrite Hcfg; exact Httl) Hcnt1 Hall
                     ltac:(lia) ltac:(lia)).
      cbn zeta in IH. rewrite Hcfg in IH.
      destruct (submissions HashForGrouping ParseList a1 r times) as [ws a2].
      destruct IH as [IHtags IHq].
      set (threshold := int64 (MaxCacheUses (cfg a))) in *.
      cbn [map]. rewrite Htag, IHtags, IHq, Hq. unfold tag_of.
      destruct (Z.gtb_spec (k + 1) threshold) as [Hgt | Hle].
      + replace (Z.to_nat (threshold - k)) with 0%nat by lia.
        replace (Z.to_nat (threshold - (k + 1))) with 0%nat by lia.
        rewrite !Nat.min_0_r. cbn. rewrite !app_nil_r, Nat.sub_0_r. split; reflexivity.
      + replace (Z.to_nat (threshold - k)) with (Datatypes.S (Z.to_nat (threshold - (k + 1))))
          by lia.
        rewrite <- Nat.succ_min_distr. cbn [replicate Nat.sub app].
        split; [ reflexivity | ].
        rewrite <- app_assoc. reflexivity.
  Qed.

End Window.

(** Submissions of one request at instants of one window, the key having
    no live entry at the first: with threshold [T], the first [min N T] are
    admitted and queued, the others ignored. *)
Lemma submissions_one_window
    (HashForGrouping : list byte -> string * option error)
    (ParseList : Header -> string -> list string)
    (a : Api MemCache.Store) (r : Request) (projectId : Z) (body : list byte)
    (times : list Z) :
  validated ParseList a r projectId ->
  getRequestBody r = (body, None) ->
  0 < UrlCacheExpiration (cfg a) ->
  MemCache.reachable (cache a) = true ->
  fresh_at (cacheKey (Vars r) (fst (HashForGrouping body))) (cache a) times ->
  one_window (window (cfg a)) times ->
  Z.of_nat (length times) < 2 ^ 63 ->
  let N := length times in
  let T := Z.to_nat (int64 (MaxCacheUses (cfg a))) in
  let '(ws, a') := submissions HashForGrouping ParseList a r times in
  map status_tag ws
  = replicate (Nat.min N T) (Some ["PROCESSED"%string])
    ++ replicate (N - Nat.min N T) (Some ["IGNORED"%string])
  /\ requestStorage a'
     = requestStorage a ++ replicate (Nat.min N T) (projectId, message_of r projectId body).
Proof.
  intros Hval Hbody Httl Hup Hfresh Hwin Hn. cbn zeta.
  destruct times as [| t0 times].
  - cbn. rewrite app_nil_r. split; reflexivity.
  - cbn [fresh_at one_window] in Hfresh, Hwin.
    apply Forall_cons in Hwin. destruct Hwin as [Ht0 Hwin].
    cbn [submissions]. cbn [length] in Hn |- *.
    pose proof (submit_at_fresh HashForGrouping ParseList r projectId body Hbody a t0
                  Hval Httl ltac:(lia) Hup Hfresh) as Hs.
    cbn zeta in Hs.
    destruct (submit_at HashForGrouping ParseList a r t0) as [w a1].
    destruct Hs as (Htag & Hq & Hcfg & Hproj & Hcnt1).
    assert (Hval1 : validated ParseList a1 r projectId).
    { destruct Hval as [Hid Hok]. split; [ exact Hid | rewrite Hproj; exact Hok ]. }
    pose proof (submissions_counted HashForGrouping ParseList r projectId body Hbody times
                  a1 1 (t0 + window (cfg a)) Hval1 ltac:(rewrite Hcfg; exact Httl) Hcnt1)
      as Hrest.
    cbn zeta in Hrest. rewrite Hcfg in Hrest.
    specialize (Hrest ltac:(eapply Forall_impl; [ exact Hwin | cbn; intros; lia ])
                      ltac:(lia) ltac:(lia)).
    destruct (submissions HashForGrouping ParseList a1 r times) as [ws a2].
    destruct Hrest as [Htags Hq2].
    set (threshold := int64 (MaxCacheUses (cfg a))) in *.
    cbn [map]. rewrite Htag, Htags, Hq2, Hq. unfold tag_of.
    destruct (Z.gtb_spec 1 threshold) as [Hgt | Hle].
    + replace (Z.to_nat threshold) with 0%nat by lia.
      replace (Z.to_nat (threshold - 1)) with 0%nat by lia.
      rewrite !Nat.min_0_r. cbn. rewrite !app_nil_r, Nat.sub_0_r. split; reflexivity.
    + replace (Z.to_nat threshold) with (Datatypes.S (Z.to_nat (threshold - 1))) by lia.
      rewrite <- Nat.succ_min_distr. cbn [replicate Nat.sub app].
      split; [ reflexivity | ].
      rewrite <- app_assoc. reflexivity.
Qed.



(** C3, amended.  When the maximum-uses threshold is 0 and the dedup TTL
    is positive, every occurrence of a content within a window is ignored,
    the first one included: nothing reaches the delivery queue. *)
Theorem C3_threshold_zero_ignores_all
    (HashForGrouping : list byte -> string * option error)
    (ParseList : Header -> string -> list string)
    (a : Api MemCache.Store) (r : Request) (projectId : Z) (body : list byte)
    (times : list Z) :
  validated ParseList a r projectId ->
  getRequestBody r = (body, None) ->
  0 < UrlCacheExpiration (cfg a) ->
  int64 (MaxCacheUses (cfg a)) = 0 ->
  MemCache.reachable (cache a) = true ->
  fresh_at (cacheKey (Vars r) (fst (HashForGrouping body))) (cache a) times ->
  one_window (window (cfg a)) times ->
  Z.of_nat (length times) < 2 ^ 63 ->
  let '(ws, a') := submissions HashForGrouping ParseList a r times in
  map status_tag ws = replicate (length times) (Some ["IGNORED"%string])
  /\ requestStorage a' = requestStorage a.
Proof.
  intros Hval Hbody Httl Hzero Hup Hfresh Hwin Hn.
  pose proof (submissions_one_window HashForGrouping ParseList a r projectId body times
                Hval Hbody Httl Hup Hfresh Hwin Hn) as Hs.
  cbn zeta in Hs. rewrite Hzero in Hs. cbn [Z.to_nat] in Hs.
  rewrite Nat.min_0_r in Hs. cbn [replicate app] in Hs.
  rewrite Nat.sub_0_r, app_nil_r in Hs. exact Hs.
Qed.

Lemma C3_threshold_zero_ignores_all_witness :
  let a := Sample.api 0 60 MemCache.empty in
  let r := Sample.post (list_byte_of_string "{}") in
  let '(ws, a') := submissions Sample.hash_id header.ParseList a r [5; 6; 7] in
  map status_tag ws = replicate 3 (Some ["IGNORED"%string])
  /\ requestStorage a' = requestStorage a.
Proof.
  refine (C3_threshold_zero_ignores_all Sample.hash_id header.ParseList
            (Sample.api 0 60 MemCache.empty) (Sample.post (list_byte_of_string "{}"))
            1 (list_byte_of_string "{}") [5; 6; 7]
            (conj eq_refl eq_refl) eq_refl eq_refl eq_refl eq_refl eq_refl _ eq_refl).
  unfold one_window. change (window _) with 60000000000.
  repeat (apply Forall_cons; split; [ lia | ]). apply Forall_nil. exact I.
Defined.

(** C3 as stated fails: with threshold 0 the first occurrence of a content
    counts 1, which exceeds the threshold, so it is ignored and not queued. *)
Lemma C3_first_occurrence_ignored :
  let a := Sample.api 0 60 MemCache.empty in
  let r := Sample.post (list_byte_of_string "{}") in
  validated header.ParseList a r 1
  /\ int64 (MaxCacheUses (cfg a)) = 0
  /\ 0 < UrlCacheExpiration (cfg a)
  /\ MemCache.entries (cache a) = ∅
  /\ let '(w', a', _) := apiHandler Sample.hash_id header.ParseList a newResponseWriter r in
     ignored a a' w' 1
     /\ ~ (exists count m, admitted a a' w' count 1 m).
Proof.
  cbn zeta. split; [ split; reflexivity | ].
  split; [ reflexivity | split; [ reflexivity | split; [ reflexivity | ] ] ].
  set (res := apiHandler _ _ _ _ _). vm_compute in res. subst res. cbv iota beta.
  split.
  - repeat split.
  - intros (count & m & Ha). destruct Ha as (_ & _ & Ht & _).
    vm_compute in Ht. discriminate Ht.
Qed.

(** ** Reading the body *)

Lemma getRequestBody_decoded (r : Request) (body d : list byte) :
  Body r = (body, None) ->
  Base64.Decode body = (d, None) ->
  getRequestBody r = (d, None).
Proof.
  intros Hb Hd. unfold getRequestBody, Base64.DecodeString.
  rewrite Hb, list_byte_of_string_of_list_byte, Hd. reflexivity.
Qed.

Lemma getRequestBody_plain (r : Request) (body : list byte) :
  Body r = (body, None) ->
  snd (Base64.Decode body) <> None ->
  getRequestBody r = (body, None).
Proof.
  intros Hb Hd. unfold getRequestBody, Base64.DecodeString.
  rewrite Hb, list_byte_of_string_of_list_byte.
  destruct (Base64.Decode body) as [d [e |]]; [ reflexivity | ].
  exfalso. apply Hd. reflexivity.
Qed.

(** C7, amended.  A body that is valid base64 is decoded before hashing; a
    body that fails base64 decoding is used as it is, and the failure is
    no error of the request; consequently a base64-encoded submission and
    a plaintext submission of the same content produce the same cache key
    whenever the plaintext is not itself decodable as base64. *)
Theorem C7_body_handling
    (HashForGrouping : list byte -> string * option error)
    (r : Request) (raw : list byte) (r_plain r_encoded : Request) (p : list byte) :
  Body r = (raw, None) ->
  Body r_plain = (p, None) ->
  Body r_encoded = (Base64.Encode p, None) ->
  Vars r_encoded = Vars r_plain ->
  snd (Base64.Decode p) <> None ->
  getRequestBody r
  = (match Base64.Decode raw with
     | (decoded, None) => decoded
     | (_, Some _) => raw
     end, None)
  /\ getRequestBody r_encoded = (p, None)
  /\ getRequestBody r_plain = (p, None)
  /\ cacheKey (Vars r_encoded) (fst (HashForGrouping (fst (getRequestBody r_encoded))))
     = cacheKey (Vars r_plain) (fst (HashForGrouping (fst (getRequestBody r_plain)))).
Proof.
  intros Hb Hp He Hvars Hplain.
  assert (Henc : getRequestBody r_encoded = (p, None)).
  { apply (getRequestBody_decoded r_encoded (Base64.Encode p) p He).
    apply Base64Facts.decode_Encode. }
  pose proof (getRequestBody_plain r_plain p Hp Hplain) as Hpl.
  split; [ | split; [ exact Henc | split; [ exact Hpl | ] ] ].
  - destruct (Base64.Decode raw) as [d [e |]] eqn:Hd.
    + apply (getRequestBody_plain r raw Hb). rewrite Hd. discriminate.
    + apply (getRequestBody_decoded r raw d Hb Hd).
  - rewrite Henc, Hpl, Hvars. reflexivity.
Qed.

Lemma C7_body_handling_witness :
  let json := [x7b; x22; x61; x22; x3a; x31; x7d] in
  let r_plain := Sample.post json in
  let r_encoded := Sample.post (list_byte_of_string "eyJhIjoxfQ==") in
  getRequestBody r_encoded
  = (match Base64.Decode (list_byte_of_string "eyJhIjoxfQ==") with
     | (decoded, None) => decoded
     | (_, Some _) => list_byte_of_string "eyJhIjoxfQ=="
     end, None)
  /\ getRequestBody r_encoded = (json, None)
  /\ getRequestBody r_plain = (json, None)
  /\ cacheKey (Vars r_encoded) (fst (Sample.hash_id (fst (getRequestBody r_encoded))))
     = cacheKey (Vars r_plain) (fst (Sample.hash_id (fst (getRequestBody r_plain)))).
Proof.
  refine (C7_body_handling Sample.hash_id
            (Sample.post (list_byte_of_string "eyJhIjoxfQ=="))
            (list_byte_of_string "eyJhIjoxfQ==")
            (Sample.post [x7b; x22; x61; x22; x3a; x31; x7d])
            (Sample.post (list_byte_of_string "eyJhIjoxfQ=="))
            [x7b; x22; x61; x22; x3a; x31; x7d]
            eq_refl eq_refl eq_refl eq_refl _).
  vm_compute. discriminate.
Defined.

(** C7 as stated fails: the plaintext [abcd] is itself valid base64, so
    the plaintext submission is decoded to three other bytes while the
    encoded submission [YWJjZA==] decodes to [abcd]; under a grouping
    oracle that tells bodies apart the two cache keys differ. *)
Lemma C7_plaintext_that_decodes :
  let p := list_byte_of_string "abcd" in
  let r := Sample.post p in
  let r' := Sample.post (Base64.Encode p) in
  Base64.Encode p = list_byte_of_string "YWJjZA=="
  /\ getRequestBody r' = (p, None)
  /\ getRequestBody r = ([x69; xb7; x1d], None)
  /\ cacheKey (Vars r') (fst (Sample.hash_id (fst (getRequestBody r'))))
     <> cacheKey (Vars r) (fst (Sample.hash_id (fst (getRequestBody r)))).
Proof.
  cbn zeta. split; [ reflexivity | split; [ reflexivity | split; [ reflexivity | ] ] ].
  vm_compute. discriminate.
Qed.

(** C10.  The body-reading function returns the base64 decoding of the
    raw body exactly when the raw body is syntactically valid standard
    base64 (groups of four alphabet characters, the last one possibly
    padded; line breaks are skipped, as [StdEncoding] does), and returns
    the raw body unchanged otherwise.  The plaintext [abcd] is such a valid
    text: the bytes hashed and delivered for it are not the bytes
    submitted. *)
Theorem C10_decoded_iff_valid_syntax (r : Request) (raw : list byte) :
  Body r = (raw, None) ->
  (std_base64_syntax raw = true <-> snd (Base64.Decode raw) = None)
  /\ getRequestBody r
     = (if std_base64_syntax raw then fst (Base64.Decode raw) else raw, None)
  /\ let abcd := Sample.post (list_byte_of_string "abcd") in
     let '(_, a', lg) :=
       apiHandler Sample.hash_id header.ParseList (Sample.api 1 60 MemCache.empty)
         newResponseWriter abcd in
     std_base64_syntax (list_byte_of_string "abcd") = true
     /\ getRequestBody abcd = ([x69; xb7; x1d], None)
     /\ [x69; xb7; x1d] <> list_byte_of_string "abcd"
     /\ In (LogDebugf "Cache Key: %s"
              (cacheKey (Vars abcd) (fst (Sample.hash_id [x69; xb7; x1d])))) lg
     /\ map (fun m => RequestBody (snd m)) (requestStorage a') = [[x69; xb7; x1d]].
Proof.
  intros Hb.
  pose proof (Base64Syntax.Decode_accepts raw) as Hacc.
  split; [ symmetry; exact Hacc | ]. split.
  - destruct (std_base64_syntax raw) eqn:Hsyn.
    + destruct (Base64.Decode raw) as [d e] eqn:Hd. cbn [fst snd] in *.
      assert (e = None) as -> by (apply Hacc; reflexivity).
      apply (getRequestBody_decoded r raw d Hb Hd).
    + apply (getRequestBody_plain r raw Hb). intros Hnone.
      apply Hacc in Hnone. congruence.
  - cbn zeta. set (res := apiHandler _ _ _ _ _). vm_compute in res. subst res.
    cbv iota beta.
    split; [ reflexivity | split; [ reflexivity | split; [ discriminate | ] ] ].
    split; [ | reflexivity ].
    right. left. vm_compute. reflexivity.
Qed.

Lemma C10_decoded_iff_valid_syntax_witness :
  getRequestBody (Sample.post (list_byte_of_string "{}"))
  = (if std_base64_syntax (list_byte_of_string "{}")
     then fst (Base64.Decode (list_byte_of_string "{}"))
     else list_byte_of_string "{}", None).
Proof.
  exact (proj1 (proj2 (C10_decoded_iff_valid_syntax
                         (Sample.post (list_byte_of_string "{}"))
                         (list_byte_of_string "{}") eq_refl))).
Defined.

(** ** Authentication *)

Lemma Contains_cut (s sep : string) :
  strings.Contains s sep = true <-> strings.cut s sep <> None.
Proof.
  induction s as [| c s IH]; cbn [strings.Contains strings.cut].
  - destruct (String.prefix sep EmptyString); cbn; split; congruence.
  - destruct (String.prefix sep (String c s)); cbn [orb]; [ split; congruence | ].
    rewrite IH. destruct (strings.cut s sep) as [[before after] |]; split; congruence.
Qed.

(** Under the guard [strings.Contains(v, sep)] the slice of
    [strings.SplitN(v, sep, 2)] has two elements: the text before the
    first separator and the text after it. *)
Lemma SplitN_two (v sep : string) :
  strings.Contains v sep = true ->
  exists before after,
    strings.cut v sep = Some (before, after)
    /\ strings.SplitN v sep 2 = [before; after].
Proof.
  intros Hc. apply Contains_cut in Hc.
  unfold strings.SplitN. cbn [strings.split_upto].
  destruct (strings.cut v sep) as [[before after] |]; [ | congruence ].
  exists before, after. split; reflexivity.
Qed.

Lemma auth_field_spec (x : XSentryAuth) (v : string) :
  auth_field x v
  = {| sentry_key := default (sentry_key x) (field_value "sentry_key" v);
       sentry_secret := default (sentry_secret x) (field_value "sentry_secret" v) |}.
Proof.
  unfold auth_field, field_value.
  destruct (strings.Contains v "=") eqn:Hc.
  - destruct (SplitN_two v "=" Hc) as (before & after & Hcut & Hsp).
    rewrite Hsp, Hcut. cbn [lookup_total list_lookup_total].
    change ([before; after] !!! 0%nat) with before.
    change ([before; after] !!! 1%nat) with after.
    destruct (String.eqb_spec before "sentry_key") as [-> | Hk]; [ reflexivity | ].
    destruct (String.eqb before "sentry_secret"); [ reflexivity | ].
    destruct x; reflexivity.
  - assert (strings.cut v "=" = None) as ->.
    { destruct (strings.cut v "=") eqn:Hcut; [ | reflexivity ].
      assert (strings.Contains v "=" = true) by (apply Contains_cut; congruence).
      congruence. }
    destruct x; reflexivity.
Qed.

Lemma last_field_cons (field v : string) (l : list string) :
  last_field field (v :: l)
  = match last_field field l with
    | Some y => Some y
    | None => field_value field v
    end.
Proof.
  unfold last_field. simpl omap.
  destruct (field_value field v) as [y |].
  - rewrite last_cons. reflexivity.
  - change (list_omap string string (field_value field) l)
      with (omap (field_value field) l).
    destruct (last (omap (field_value field) l)); reflexivity.
Qed.

Lemma foldl_auth_field (l : list string) : forall x : XSentryAuth,
  foldl auth_field x l
  = {| sentry_key := default (sentry_key x) (last_field "sentry_key" l);
       sentry_secret := default (sentry_secret x) (last_field "sentry_secret" l) |}.
Proof.
  induction l as [| v l IH]; intros x; [ destruct x; reflexivity | ].
  cbn [foldl]. rewrite IH, auth_field_spec. cbn [sentry_key sentry_secret].
  rewrite !last_field_cons.
  destruct (last_field "sentry_key" l), (last_field "sentry_secret" l); reflexivity.
Qed.

(** C8, amended.  For every request, the key is first read from the query
    parameter [sentry_key] while the secret starts empty (no query
    parameter is read for it); both are then overlaid by the
    [field=value] elements of the X-Sentry-Auth header list, header values
    overriding field by field (key and secret independently), the last
    header value winning when a field is repeated. *)
Theorem C8_auth_resolution (ParseList : Header -> string -> list string) (r : Request) :
  let l := ParseList (Req_Header r) "X-Sentry-Auth" in
  getSentryKeyAndSecret ParseList r
  = {| sentry_key :=
         default (Values_Get (URL_Query r) "sentry_key") (last_field "sentry_key" l);
       sentry_secret := default EmptyString (last_field "sentry_secret" l) |}.
Proof. cbn zeta. unfold getSentryKeyAndSecret. apply foldl_auth_field. Qed.

(** C8 as stated fails: a secret given as query parameter is not read. *)
Lemma C8_query_secret_not_read :
  let r := Sample.request {[ "sentry_key" := ["k1"]; "sentry_secret" := ["s1"] ]} ∅ ([], None) in
  Values_Get (URL_Query r) "sentry_secret" = "s1"%string
  /\ sentry_secret (auth_as_specified header.ParseList r) = "s1"%string
  /\ sentry_secret (getSentryKeyAndSecret header.ParseList r) = EmptyString
  /\ getSentryKeyAndSecret header.ParseList r <> auth_as_specified header.ParseList r.
Proof.
  cbn zeta. split; [ reflexivity | split; [ reflexivity | split; [ reflexivity | ] ] ].
  vm_compute. discriminate.
Qed.

(** ** Concurrent callers *)

Module ConcurrentFacts.
Import Concurrent.

Lemma omap_returned_cons (q : pc) (ps : list pc) :
    omap returned (q :: ps)
    = match returned q with
      | Some n => n :: omap returned ps
      | None => omap returned ps
      end.
  Proof. reflexivity. Qed.

  (** A caller that moves between two places short of returning leaves the
      returned counts as they are. *)
Lemma omap_returned_insert_pending (ps : list pc) (i : nat) (p p' : pc) :
    ps !! i = Some p -> returned p = None -> returned p' = None ->
    omap returned (<[i := p']> ps) = omap returned ps.
  Proof.
    revert i. induction ps as [| q ps IH]; intros i Hi Hp Hp'; [ discriminate | ].
    destruct i as [| i].
    - injection Hi as ->.
      change (<[0%nat := p']> (p :: ps)) with (p' :: ps).
      rewrite !omap_returned_cons, Hp, Hp'. reflexivity.
    - change (<[Datatypes.S i := p']> (q :: ps)) with (q :: <[i := p']> ps).
      rewrite !omap_returned_cons, (IH i Hi Hp Hp'). reflexivity.
  Qed.

  (** A caller that returns adds its count. *)
Lemma omap_returned_insert_returned (ps : list pc) (i : nat) (p : pc) (n : Z) :
    ps !! i = Some p -> returned p = None ->
    omap returned (<[i := Returned n]> ps) ≡ₚ n :: omap returned ps.
  Proof.
    revert i. induction ps as [| q ps IH]; intros i Hi Hp; [ discriminate | ].
    destruct i as [| i].
    - injection Hi as ->.
      change (<[0%nat := Returned n]> (p :: ps)) with (Returned n :: ps).
      rewrite !omap_returned_cons, Hp. reflexivity.
    - change (<[Datatypes.S i := Returned n]> (q :: ps)) with (q :: <[i := Returned n]> ps).
      rewrite !omap_returned_cons.
      destruct (returned q) as [m |]; rewrite (IH i Hi Hp);
        [ apply Permutation_swap | reflexivity ].
  Qed.

Lemma omap_returned_length (ps : list pc) :
    (length (omap returned ps) <= length ps)%nat.
  Proof.
    induction ps as [| q ps IH]; [ cbn; lia | ].
    rewrite omap_returned_cons. destruct (returned q); cbn [length]; lia.
  Qed.

Lemma omap_returned_length_pending (ps : list pc) (i : nat) (p : pc) :
    ps !! i = Some p -> returned p = None ->
    (length (omap returned ps) < length ps)%nat.
  Proof.
    revert i. induction ps as [| q ps IH]; intros i Hi Hp; [ discriminate | ].
    rewrite omap_returned_cons. destruct i as [| i].
    - injection Hi as ->. rewrite Hp.
      pose proof (omap_returned_length ps). cbn [length]. lia.
    - specialize (IH i Hi Hp). destruct (returned q); cbn [length]; lia.
  Qed.

Lemma omap_returned_pending (ps : list pc) :
    Forall (fun p => p = AtGet \/ p = AtSet) ps -> omap returned ps = [].
  Proof.
    induction 1 as [| p ps [-> | ->] _ IH]; [ reflexivity | | ];
      rewrite omap_returned_cons; exact IH.
  Qed.

Lemma current_later (s : MemCache.Store) (url : string) (t : Z) :
    MemCache.current s url = None -> MemCache.clock s <= t ->
    MemCache.current (MemCache.at_time t s) url = None.
  Proof.
    unfold MemCache.current, MemCache.live. cbn.
    destruct (MemCache.entries s !! url) as [e |]; [ | reflexivity ].
    destruct (MemCache.expiresAt e) as [d |]; [ | discriminate ].
    destruct (Z.ltb_spec (MemCache.clock s) d); [ discriminate | ].
    intros _ Ht. destruct (Z.ltb_spec t d); [ lia | reflexivity ].
  Qed.

Lemma current_live (s : MemCache.Store) (url : string) (n d : Z) :
    MemCache.entries s !! url = Some {| MemCache.count := n; MemCache.expiresAt := Some d |} ->
    MemCache.clock s < d ->
    MemCache.current s url = Some {| MemCache.count := n; MemCache.expiresAt := Some d |}.
  Proof.
    intros He Ht. unfold MemCache.current, MemCache.live. rewrite He. cbn.
    destruct (Z.ltb_spec (MemCache.clock s) d); [ reflexivity | lia ].
  Qed.

Section Steps.

Variable cfg : Config.
Variable url : string.
Variable K : nat.
Variable s0 : MemCache.Store.
Hypothesis Httl : 0 < UrlCacheExpiration cfg.
Hypothesis HK : Z.of_nat K < 2 ^ 63.

Let deadline : Z := MemCache.clock s0 + window cfg.

Lemma invariant_step (st st' : list pc * MemCache.Store) :
      invariant cfg url K s0 st ->
      step cfg url deadline st st' ->
      invariant cfg url K s0 st'.
    Proof.
      intros Hinv Hstep.
      destruct Hstep as [i ps p p' c c' Hi Hcs | ps c t Ht].
      - destruct Hinv as (Hlen & Hup & Hclock & Hcases).
        unfold caller_step in Hcs.
        destruct (Z.gtb_spec (UrlCacheExpiration cfg) 0) as [_ | Hle]; [ | lia ].
        cbn [cache_Get cache_Set cache_Incr MemCache.store] in Hcs.
        fold (window cfg) in Hcs.
        destruct Hcases as [[Hcur Hpend] | (d & Hd & Hent & Hperm)].
        + (* no entry yet *)
          assert (Hp : p = AtGet \/ p = AtSet).
          { rewrite Forall_lookup in Hpend. apply (Hpend i p Hi). }
          destruct Hp as [-> | ->].
          * unfold MemCache.get in Hcs. rewrite Hup, Hcur in Hcs. cbn in Hcs.
            injection Hcs as <- <-.
            split; [ rewrite length_insert; exact Hlen | ].
            split; [ exact Hup | split; [ exact Hclock | left ] ].
            split; [ exact Hcur | ].
            apply Forall_insert; [ exact Hpend | right; reflexivity ].
          * unfold MemCache.setIfAbsent in Hcs. rewrite Hup, Hcur in Hcs. cbn in Hcs.
            injection Hcs as <- <-.
            split; [ rewrite length_insert; exact Hlen | ].
            split; [ exact Hup | split; [ exact Hclock | right ] ].
            exists (MemCache.clock c + window cfg).
            rewrite (omap_returned_insert_pending ps i AtSet AtIncr Hi eq_refl eq_refl).
            rewrite (omap_returned_pending ps Hpend). cbn.
            split; [ lia | split; [ apply lookup_insert_eq | reflexivity ] ].
        + (* the entry exists *)
          pose proof (current_live c url _ d Hent ltac:(lia)) as Hcur.
          destruct p as [| | | n].
          * unfold MemCache.get in Hcs. rewrite Hup, Hcur in Hcs. cbn [MemCache.count] in Hcs.
            injection Hcs as <- <-.
            split; [ rewrite length_insert; exact Hlen | ].
            split; [ exact Hup | split; [ exact Hclock | right ] ].
            exists d.
            rewrite (omap_returned_insert_pending ps i AtGet _ Hi eq_refl)
              by (destruct (_ =? 0); reflexivity).
            split; [ exact Hd | split; [ exact Hent | exact Hperm ] ].
          * unfold MemCache.setIfAbsent in Hcs. rewrite Hup, Hcur in Hcs. cbn in Hcs.
            injection Hcs as <- <-.
            split; [ rewrite length_insert; exact Hlen | ].
            split; [ exact Hup | split; [ exact Hclock | right ] ].
            exists d.
            rewrite (omap_returned_insert_pending ps i AtSet AtIncr Hi eq_refl eq_refl).
            split; [ exact Hd | split; [ exact Hent | exact Hperm ] ].
          * unfold MemCache.incrementAndGet in Hcs. rewrite Hup, Hcur in Hcs.
            cbn [MemCache.count MemCache.expiresAt] in Hcs.
            injection Hcs as <- <-.
            pose proof (omap_returned_length_pending ps i AtIncr Hi eq_refl) as Hle.
            pose proof (omap_returned_insert_returned ps i AtIncr
                          (int64 (Z.of_nat (length (omap returned ps)) + 1)) Hi eq_refl)
              as Hins.
            rewrite int64_small in Hins |- * by lia.
            assert (Hlen' : length (omap returned
                              (<[i := Returned (Z.of_nat (length (omap returned ps)) + 1)]> ps))
                            = Datatypes.S (length (omap returned ps))).
            { rewrite Hins. reflexivity. }
            split; [ rewrite length_insert; exact Hlen | ].
            split; [ exact Hup | split; [ exact Hclock | right ] ].
            exists d. rewrite Hlen'.
            split; [ exact Hd | split ].
            -- cbn. rewrite lookup_insert_eq. do 2 f_equal. lia.
            -- rewrite Hins, seq_S, map_app. cbn [map].
               rewrite Permutation_app_comm. cbn [app].
               apply Permutation_cons; [ lia | exact Hperm ].
          * discriminate Hcs.
      - destruct Hinv as (Hlen & Hup & Hclock & Hcases). fold deadline in Hclock.
        split; [ exact Hlen | split; [ exact Hup | ] ].
        split; [ cbn; fold deadline; lia | ].
        destruct Hcases as [[Hcur Hpend] | (d & Hd & Hent & Hperm)].
        + left. split; [ apply current_later; [ exact Hcur | lia ] | exact Hpend ].
        + right. exists d. split; [ exact Hd | split; [ exact Hent | exact Hperm ] ].
    Qed.

Lemma invariant_rtc (st st' : list pc * MemCache.Store) :
      rtc (step cfg url deadline) st st' ->
      invariant cfg url K s0 st -> invariant cfg url K s0 st'.
    Proof.
      induction 1 as [| st1 st2 st3 Hstep _ IH]; intros Hinv; [ exact Hinv | ].
      apply IH. apply (invariant_step st1 st2 Hinv Hstep).
    Qed.

End Steps.
End ConcurrentFacts.

(** A caller running alone through its operations computes what
    [validateCache] computes. *)
Lemma run_caller_validateCache {S : Type} `{CacheStore S} (a : Api S) (url : string) :
  Concurrent.run_caller (cfg a) url 3 Concurrent.AtGet (cache a)
  = (Concurrent.Returned (fst (validateCache a url)), cache (snd (validateCache a url))).
Proof.
  unfold validateCache. cbn [Concurrent.run_caller Concurrent.caller_step].
  destruct (UrlCacheExpiration (cfg a) >? 0); [ | reflexivity ].
  destruct (cache_Get url (cache a)) as [[count e] c1].
  destruct (count =? 0); cbn [Concurrent.run_caller Concurrent.caller_step].
  - destruct (cache_Incr url _) as [[count' e'] c3]. reflexivity.
  - destruct (cache_Incr url c1) as [[count' e'] c3]. reflexivity.
Qed.

Lemma all_returned_length (ps : list Concurrent.pc) :
  Forall (fun p => is_Some (Concurrent.returned p)) ps ->
  length (omap Concurrent.returned ps) = length ps.
Proof.
  induction 1 as [| p ps [n Hp] _ IH]; [ reflexivity | ].
  rewrite ConcurrentFacts.omap_returned_cons, Hp. cbn [length]. rewrite IH. reflexivity.
Qed.

(** C9.  K concurrent callers of [validateCache] on one cache key, started
    when the key has no live entry and all finished within the TTL window
    that the first of them opens: the counts returned are exactly
    1, 2, ..., K in some order, without duplicate or gap, and no two
    callers saw the same value before their increment. *)
Theorem C9_concurrent_increments (cfg : Config) (url : string) (K : nat)
    (s0 s : MemCache.Store) (ps : list Concurrent.pc) :
  0 < UrlCacheExpiration cfg ->
  0 < window cfg ->
  Z.of_nat K < 2 ^ 63 ->
  MemCache.reachable s0 = true ->
  MemCache.current s0 url = None ->
  rtc (Concurrent.step cfg url (MemCache.clock s0 + window cfg))
      (replicate K Concurrent.AtGet, s0) (ps, s) ->
  Forall (fun p => is_Some (Concurrent.returned p)) ps ->
  omap Concurrent.returned ps ≡ₚ map Z.of_nat (seq 1 K)
  /\ NoDup (omap Concurrent.returned ps)
  /\ NoDup (map (fun count => count - 1) (omap Concurrent.returned ps)).
Proof.
  intros Httl Hwin HK Hup Hcur Hrun Hdone.
  assert (Hinit : Concurrent.invariant cfg url K s0 (replicate K Concurrent.AtGet, s0)).
  { split; [ apply length_replicate | split; [ exact Hup | split; [ lia | left ] ] ].
    split; [ exact Hcur | ].
    apply Forall_replicate. left. reflexivity. }
  pose proof (ConcurrentFacts.invariant_rtc cfg url K s0 Httl HK _ _ Hrun Hinit) as Hinv.
  destruct Hinv as (Hlen & _ & _ & Hcases).
  pose proof (all_returned_length ps Hdone) as Hall.
  assert (Hperm : omap Concurrent.returned ps ≡ₚ map Z.of_nat (seq 1 K)).
  { destruct Hcases as [[_ Hpend] | (d & _ & _ & Hperm)].
    - rewrite (ConcurrentFacts.omap_returned_pending ps Hpend) in Hall |- *.
      cbn [length] in Hall. rewrite <- Hlen, <- Hall. reflexivity.
    - rewrite Hall, Hlen in Hperm. exact Hperm. }
  assert (Hnodup : NoDup (map Z.of_nat (seq 1 K))).
  { change (NoDup (Z.of_nat <$> seq 1 K)).
    apply NoDup_fmap_2; [ intros x y; apply Nat2Z.inj | apply NoDup_seq ]. }
  split; [ exact Hperm | split ].
  - rewrite Hperm. exact Hnodup.
  - change (NoDup ((fun count => count - 1) <$> omap Concurrent.returned ps)).
    apply NoDup_fmap_2; [ intros x y; lia | ].
    rewrite Hperm. exact Hnodup.
Qed.

Lemma C9_concurrent_increments_witness :
  omap Concurrent.returned [Concurrent.Returned 2; Concurrent.Returned 1]
    ≡ₚ map Z.of_nat (seq 1 2)
  /\ NoDup (omap Concurrent.returned [Concurrent.Returned 2; Concurrent.Returned 1])
  /\ NoDup (map (fun count => count - 1)
              (omap Concurrent.returned [Concurrent.Returned 2; Concurrent.Returned 1])).
Proof.
  refine (C9_concurrent_increments (Sample.config 1 60) "1{}" 2 MemCache.empty _
            [Concurrent.Returned 2; Concurrent.Returned 1]
            eq_refl eq_refl eq_refl eq_refl eq_refl _ _).
  - (* both callers read 0, both set, the second increments first *)
    eapply rtc_l; [ apply (Concurrent.step_caller _ _ _ 0%nat) with (p := Concurrent.AtGet);
                    reflexivity | ].
    eapply rtc_l; [ apply (Concurrent.step_caller _ _ _ 1%nat) with (p := Concurrent.AtGet);
                    reflexivity | ].
    eapply rtc_l; [ apply (Concurrent.step_caller _ _ _ 0%nat) with (p := Concurrent.AtSet);
                    reflexivity | ].
    eapply rtc_l; [ apply (Concurrent.step_clock _ _ _ _ _ 7); vm_compute;
                    split; [ discriminate | reflexivity ] | ].
    eapply rtc_l; [ apply (Concurrent.step_caller _ _ _ 1%nat) with (p := Concurrent.AtSet);
                    reflexivity | ].
    eapply rtc_l; [ apply (Concurrent.step_caller _ _ _ 1%nat) with (p := Concurrent.AtIncr);
                    reflexivity | ].
    eapply rtc_l; [ apply (Concurrent.step_caller _ _ _ 0%nat) with (p := Concurrent.AtIncr);
                    reflexivity | ].
    apply rtc_refl.
  - repeat constructor; eexists; reflexivity.
Defined.

(** * Further properties of the handlers *)

(** ** Rejections and the counters *)

Section Serving.

Context {S : Type} `{CacheStore S}.
Variable HashForGrouping : list byte -> string * option error.
Variable ParseList : Header -> string -> list string.

(** The three ways a request ends: rejected with the [Api] untouched and
    no header set, ignored, or admitted with one message queued. *)
Lemma apiHandler_outcomes (a : Api S) (r : Request) :
  let '(w', a', _) := apiHandler HashForGrouping ParseList a newResponseWriter r in
  (w_Status w' = Some StatusNotFound /\ w_Header w' = ∅ /\ a' = a)
  \/ (w_Status w' = Some StatusNoContent
      /\ status_tag w' = Some ["IGNORED"%string]
      /\ ignoredItems a' = uint64 (ignoredItems a + 1)
      /\ processedItems a' = processedItems a
      /\ requestStorage a' = requestStorage a)
  \/ (w_Status w' = Some StatusNoContent
      /\ status_tag w' = Some ["PROCESSED"%string]
      /\ ignoredItems a' = ignoredItems a
      /\ processedItems a' = uint64 (processedItems a + 1)
      /\ exists m, requestStorage a' = requestStorage a ++ [m]).
Proof.
  destruct (strconv.Atoi (index_map (Vars r) "projectId")) as [projectId oerr] eqn:Hid.
  destruct oerr as [err |].
  { unfold apiHandler. rewrite Hid. left. repeat split. }
  destruct (projects a projectId (sentry_key (getSentryKeyAndSecret ParseList r))) eqn:Hok.
  2: { unfold apiHandler. rewrite Hid, Hok. left. repeat split. }
  destruct (getRequestBody r) as [body oerr] eqn:Hbody.
  destruct oerr as [err |].
  { unfold apiHandler. rewrite Hid, Hok, Hbody. left. repeat split. }
  pose proof (apiHandler_decides HashForGrouping ParseList a r projectId body
                (conj Hid Hok) Hbody) as Hd.
  cbn zeta in Hd.
  destruct (apiHandler HashForGrouping ParseList a newResponseWriter r) as [[w' a'] lg].
  destruct Hd as [_ Hd].
  destruct (_ >? _).
  - right. left. destruct Hd as (Hs & _ & Ht & Hi & Hp & Hq). repeat split; assumption.
  - right. right. destruct Hd as (Hs & _ & Ht & Hp & Hi & Hq).
    repeat split; try assumption. eexists. exact Hq.
Qed.

(** X1.  A request is rejected exactly when the project id does not parse, the
    project and key are not known, or the body cannot be read; a rejected
    request is answered 404 with no header and leaves the cache, the queue
    and both counters as they were; any other request is answered 204. *)
Theorem apiHandler_rejects_untouched (a : Api S) (r : Request) :
  let accepted :=
    match strconv.Atoi (index_map (Vars r) "projectId") with
    | (projectId, None) =>
        projects a projectId (sentry_key (getSentryKeyAndSecret ParseList r))
        && match getRequestBody r with
           | (_, None) => true
           | (_, Some _) => false
           end
    | (_, Some _) => false
    end in
  let '(w', a', _) := apiHandler HashForGrouping ParseList a newResponseWriter r in
  if accepted
  then w_Status w' = Some StatusNoContent
  else w_Status w' = Some StatusNotFound /\ w_Header w' = ∅ /\ a' = a.
Proof.
  cbn zeta.
  destruct (strconv.Atoi (index_map (Vars r) "projectId")) as [projectId oerr] eqn:Hid.
  destruct oerr as [err |].
  { unfold apiHandler. rewrite Hid. repeat split. }
  destruct (projects a projectId (sentry_key (getSentryKeyAndSecret ParseList r))) eqn:Hok.
  2: { unfold apiHandler. rewrite Hid, Hok. repeat split. }
  destruct (getRequestBody r) as [body oerr] eqn:Hbody.
  destruct oerr as [err |].
  { unfold apiHandler. rewrite Hid, Hok, Hbody. repeat split. }
  pose proof (apiHandler_decides HashForGrouping ParseList a r projectId body
                (conj Hid Hok) Hbody) as Hd.
  cbn zeta in Hd.
  destruct (apiHandler HashForGrouping ParseList a newResponseWriter r) as [[w' a'] lg].
  destruct Hd as [_ Hd]. cbn [andb].
  destruct (_ >? _); apply Hd.
Qed.

Lemma tagged_cons (tag : string) (w : ResponseWriter) (ws : list ResponseWriter) :
  tagged tag (w :: ws)
  = ((if decide (status_tag w = Some [tag]) then 1 else 0) + tagged tag ws)%nat.
Proof.
  unfold tagged. destruct (decide (status_tag w = Some [tag])) as [Ht | Ht].
  - rewrite filter_cons_True by exact Ht. reflexivity.
  - rewrite filter_cons_False by exact Ht. reflexivity.
Qed.

(** Serving any requests in turn: each counter moved by the number of
    responses with its tag, and the queue grew by the number of
    [PROCESSED] responses, keeping what it held. *)
Lemma serve_counts (rs : list Request) : forall a : Api S,
  let '(ws, a') := serve HashForGrouping ParseList a rs in
  uint64 (processedItems a')
  = uint64 (processedItems a + Z.of_nat (tagged "PROCESSED" ws))
  /\ uint64 (ignoredItems a')
     = uint64 (ignoredItems a + Z.of_nat (tagged "IGNORED" ws))
  /\ exists ms, requestStorage a' = requestStorage a ++ ms
                /\ length ms = tagged "PROCESSED" ws.
Proof.
  induction rs as [| r rs IH]; intros a.
  - cbn. rewrite !Z.add_0_r. split; [ reflexivity | split; [ reflexivity | ] ].
    exists []. rewrite app_nil_r. split; reflexivity.
  - cbn [serve].
    pose proof (apiHandler_outcomes a r) as Ho.
    destruct (apiHandler HashForGrouping ParseList a newResponseWriter r) as [[w a1] lg].
    specialize (IH a1).
    destruct (serve HashForGrouping ParseList a1 rs) as [ws a2].
    destruct IH as (IHp & IHi & ms & IHq & IHlen).
    rewrite !tagged_cons.
    destruct Ho as [(Hs & Hh & ->) | [(Hs & Ht & Hi & Hp & Hq) | (Hs & Ht & Hi & Hp & m & Hq)]].
    + assert (Hnone : status_tag w = None).
      { unfold status_tag. rewrite Hh. apply lookup_empty. }
      rewrite Hnone.
      destruct (decide (None = Some ["PROCESSED"%string])) as [Hx | _]; [ discriminate Hx | ].
      destruct (decide (None = Some ["IGNORED"%string])) as [Hx | _]; [ discriminate Hx | ].
      cbn [Nat.add]. split; [ exact IHp | split; [ exact IHi | ] ].
      exists ms. split; assumption.
    + rewrite Ht.
      destruct (decide (Some ["IGNORED"%string] = Some ["PROCESSED"%string])) as [Hx | _];
        [ discriminate Hx | ].
      destruct (decide (Some ["IGNORED"%string] = Some ["IGNORED"%string])) as [_ | Hx];
        [ | congruence ].
      cbn [Nat.add]. rewrite IHp, IHi, Hp, Hi.
      split; [ reflexivity | split ].
      * rewrite uint64_add_uint64. f_equal. lia.
      * exists ms. rewrite IHq, Hq. split; [ reflexivity | exact IHlen ].
    + rewrite Ht.
      destruct (decide (Some ["PROCESSED"%string] = Some ["PROCESSED"%string])) as [_ | Hx];
        [ | congruence ].
      destruct (decide (Some ["PROCESSED"%string] = Some ["IGNORED"%string])) as [Hx | _];
        [ discriminate Hx | ].
      cbn [Nat.add]. rewrite IHp, IHi, Hp, Hi.
      split; [ rewrite uint64_add_uint64; f_equal; lia | split; [ reflexivity | ] ].
      exists (m :: ms). rewrite IHq, Hq, <- app_assoc. split; [ reflexivity | ].
      cbn [length]. rewrite IHlen. reflexivity.
Qed.


Lemma uint64_range (x : Z) : 0 <= uint64 x < 2 ^ 64.
Proof. unfold uint64. apply Z.mod_pos_bound. lia. Qed.

Lemma uint64_small (x : Z) : 0 <= x < 2 ^ 64 -> uint64 x = x.
Proof. intros Hx. unfold uint64. apply Z.mod_small. exact Hx. Qed.

(** The counters stay 64-bit unsigned values. *)
Lemma serve_in_range (rs : list Request) : forall a : Api S,
  0 <= processedItems a < 2 ^ 64 ->
  0 <= ignoredItems a < 2 ^ 64 ->
  let a' := snd (serve HashForGrouping ParseList a rs) in
  0 <= processedItems a' < 2 ^ 64 /\ 0 <= ignoredItems a' < 2 ^ 64.
Proof.
  induction rs as [| r rs IH]; intros a Hp Hi; [ split; assumption | ].
  cbn [serve].
  pose proof (apiHandler_outcomes a r) as Ho.
  destruct (apiHandler HashForGrouping ParseList a newResponseWriter r) as [[w a1] lg].
  specialize (IH a1).
  destruct (serve HashForGrouping ParseList a1 rs) as [ws a2]. cbn [snd] in *.
  apply IH.
  - destruct Ho as [(_ & _ & ->) | [(_ & _ & _ & -> & _) | (_ & _ & _ & -> & _)]];
      [ exact Hp | exact Hp | apply uint64_range ].
  - destruct Ho as [(_ & _ & ->) | [(_ & _ & -> & _) | (_ & _ & -> & _)]];
      [ exact Hi | apply uint64_range | exact Hi ].
Qed.

(** X2.  Whatever requests are served, on whatever store: the processed counter
    has moved by the number of [PROCESSED] responses and the ignored
    counter by the number of [IGNORED] responses (modulo 2^64), and the
    delivery queue holds what it held, followed by one message per
    [PROCESSED] response. *)
Theorem serve_counts_every_outcome (a : Api S) (rs : list Request) :
  0 <= processedItems a < 2 ^ 64 ->
  0 <= ignoredItems a < 2 ^ 64 ->
  let '(ws, a') := serve HashForGrouping ParseList a rs in
  processedItems a' = uint64 (processedItems a + Z.of_nat (tagged "PROCESSED" ws))
  /\ ignoredItems a' = uint64 (ignoredItems a + Z.of_nat (tagged "IGNORED" ws))
  /\ exists ms, requestStorage a' = requestStorage a ++ ms
                /\ length ms = tagged "PROCESSED" ws.
Proof.
  intros Hp Hi.
  pose proof (serve_counts rs a) as Hc.
  pose proof (serve_in_range rs a Hp Hi) as Hr. cbn zeta in Hr.
  destruct (serve HashForGrouping ParseList a rs) as [ws a']. cbn [snd] in Hr.
  destruct Hc as (Hcp & Hci & Hq). destruct Hr as [Hrp Hri].
  rewrite (uint64_small _ Hrp) in Hcp. rewrite (uint64_small _ Hri) in Hci.
  split; [ exact Hcp | split; [ exact Hci | exact Hq ] ].
Qed.

(** X3.  The statistics of a router started by [NewApiRouter], after it served
    any requests: the text gives the number of [PROCESSED] and of
    [IGNORED] responses (modulo 2^64), with status 200. *)
Theorem statsHandler_reports_outcomes (cfg0 : Config) (cache0 : S)
    (requestStorage0 : list (Z * Message)) (projects0 : Z -> string -> bool)
    (rs : list Request) (r : Request) :
  let '(ws, a') :=
    serve HashForGrouping ParseList (NewApi cfg0 cache0 requestStorage0 projects0) rs in
  statsHandler a' newResponseWriter r
  = ({| w_Header := ∅; w_Status := Some StatusOK |},
     list_byte_of_string
       ("Processed Items: " +:+ FormatUint (uint64 (Z.of_nat (tagged "PROCESSED" ws)))
        +:+ newline
        +:+ "Ignored Items: " +:+ FormatUint (uint64 (Z.of_nat (tagged "IGNORED" ws))))).
Proof.
  pose proof (serve_counts rs (NewApi cfg0 cache0 requestStorage0 projects0)) as Hc.
  pose proof (serve_in_range rs (NewApi cfg0 cache0 requestStorage0 projects0)
                ltac:(cbn; lia) ltac:(cbn; lia)) as Hr.
  cbn zeta in Hr.
  destruct (serve HashForGrouping ParseList _ rs) as [ws a']. cbn [snd] in Hr.
  destruct Hc as (Hcp & Hci & _). destruct Hr as [Hrp Hri].
  rewrite (uint64_small _ Hrp) in Hcp. rewrite (uint64_small _ Hri) in Hci.
  cbn [NewApi processedItems ignoredItems] in Hcp, Hci. rewrite !Z.add_0_l in Hcp, Hci.
  unfold statsHandler, Write. rewrite Hcp, Hci. reflexivity.
Qed.

End Serving.

Lemma serve_counts_every_outcome_witness :
  let a := Sample.api 1 60 MemCache.empty in
  let rs := [Sample.post (list_byte_of_string "{}"); Sample.post_broken;
             Sample.post (list_byte_of_string "{}")] in
  let '(ws, a') := serve Sample.hash_id header.ParseList a rs in
  processedItems a' = uint64 (processedItems a + Z.of_nat (tagged "PROCESSED" ws))
  /\ ignoredItems a' = uint64 (ignoredItems a + Z.of_nat (tagged "IGNORED" ws))
  /\ exists ms, requestStorage a' = requestStorage a ++ ms
                /\ length ms = tagged "PROCESSED" ws.
Proof.
  refine (serve_counts_every_outcome Sample.hash_id header.ParseList
            (Sample.api 1 60 MemCache.empty)
            [Sample.post (list_byte_of_string "{}"); Sample.post_broken;
             Sample.post (list_byte_of_string "{}")] _ _).
  - vm_compute. split; [ discriminate | reflexivity ].
  - vm_compute. split; [ discriminate | reflexivity ].
Defined.

(** ** The cache key *)

Lemma append_cons (c : ascii) (s t : string) : String c s +:+ t = String c (s +:+ t).
Proof. reflexivity. Qed.

Lemma append_assoc (s1 s2 s3 : string) : (s1 +:+ s2) +:+ s3 = s1 +:+ (s2 +:+ s3).
Proof.
  induction s1 as [| c s1 IH]; [ reflexivity | ].
  rewrite !append_cons, IH. reflexivity.
Qed.


(** X5.  The key is the bare concatenation of project id and identifier: the
    key of project [p ++ q] under identifier [h] is the key of project [p]
    under identifier [q ++ h], so events of two projects can share a
    counter. *)
Theorem cacheKey_across_projects (vars : gmap string string) (p q h : string) :
  cacheKey (<["projectId" := p +:+ q]> vars) h
  = cacheKey (<["projectId" := p]> vars) (q +:+ h).
Proof.
  unfold cacheKey, index_map. rewrite !lookup_insert_eq. cbn [default].
  apply append_assoc.
Qed.

(** ** The body *)

Lemma quantum_length (dbuf : list Z) :
  length (Base64.quantum dbuf) = Nat.min (length dbuf - 1) 3.
Proof. unfold Base64.quantum. rewrite length_take. reflexivity. Qed.

(** Four characters give at most three bytes. *)
Lemma decode_length (n : Z) (src : list byte) : forall (si : Z) (dbuf : list Z),
  (length dbuf <= 3)%nat ->
  (4 * length (fst (Base64.decode n src si dbuf)) <= 3 * (length dbuf + length src))%nat.
Proof.
  induction src as [| c src IH]; intros si dbuf Hlen.
  - cbn [Base64.decode]. destruct dbuf; cbn; lia.
  - cbn [Base64.decode]. cbn zeta.
    destruct (negb (Base64.decodeMap c =? 255)).
    + rewrite length_app. cbn [length].
      destruct (Nat.eqb_spec (length dbuf + 1) 4) as [H4 | H4].
      * specialize (IH (si + 1) [] ltac:(cbn; lia)).
        destruct (Base64.decode n src (si + 1) []) as [o e]. cbn [fst length] in *.
        rewrite length_app, quantum_length, length_app. cbn [length]. lia.
      * specialize (IH (si + 1) (dbuf ++ [Base64.decodeMap c])).
        rewrite length_app in IH. cbn [length] in IH. specialize (IH ltac:(lia)). lia.
    + destruct (Base64.is_newline c).
      * specialize (IH (si + 1) dbuf Hlen). cbn [length]. lia.
      * destruct (negb (Byte.eqb c Base64.padChar)); [ cbn; lia | ].
        destruct dbuf as [| d0 [| d1 [| d2 dbuf]]]; cbn [length]; [ cbn; lia | cbn; lia | | ].
        -- destruct (Base64.skip_newlines src (si + 1)) as [rest1 si1].
           destruct rest1 as [| c2 rest2]; [ cbn; lia | ].
           destruct (negb (Byte.eqb c2 Base64.padChar)); [ cbn; lia | ].
           destruct (Base64.skip_newlines rest2 (si1 + 1)) as [rest3 si3].
           cbn [fst]. rewrite quantum_length. cbn [length]. lia.
        -- destruct (Base64.skip_newlines src (si + 1)) as [rest3 si3].
           cbn [fst]. rewrite quantum_length. cbn [length] in *. lia.
Qed.

(** X6.  Whatever the body, what [getRequestBody] returns is never longer than
    what was read, and it fails exactly when the read failed, with the
    read's error. *)
Theorem getRequestBody_never_longer (r : Request) :
  (length (fst (getRequestBody r)) <= length (fst (Body r)))%nat
  /\ snd (getRequestBody r) = snd (Body r).
Proof.
  unfold getRequestBody, Base64.DecodeString, Base64.Decode.
  destruct (Body r) as [body [err |]]; cbn [fst snd]; [ split; [ lia | reflexivity ] | ].
  rewrite list_byte_of_string_of_list_byte.
  pose proof (decode_length (Z.of_nat (length body)) body 0 [] ltac:(cbn; lia)) as Hd.
  destruct (Base64.decode _ body 0 []) as [d [e |]]; cbn [fst snd length] in *;
    split; [ lia | reflexivity | lia | reflexivity ].
Qed.

(** X7.  A body that is the standard base64 encoding of some bytes is always
    replaced by those bytes, whatever they are. *)
Theorem getRequestBody_decodes_encoded (r : Request) (p : list byte) :
  Body r = (list_byte_of_string (Base64.EncodeToString p), None) ->
  getRequestBody r = (p, None)
  /\ std_base64_syntax (Base64.Encode p) = true.
Proof.
  intros Hb. unfold Base64.EncodeToString in Hb.
  rewrite list_byte_of_string_of_list_byte in Hb.
  pose proof (proj1 (Base64Facts.decode_Encode p) (Z.of_nat (length (Base64.Encode p))) 0)
    as Hd.
  split.
  - apply (getRequestBody_decoded r (Base64.Encode p) p Hb Hd).
  - apply Base64Syntax.Decode_accepts. unfold Base64.Decode. rewrite Hd. reflexivity.
Qed.

Lemma getRequestBody_decodes_encoded_witness :
  getRequestBody (Sample.post (list_byte_of_string "YWJjZA=="))
    = (list_byte_of_string "abcd", None)
  /\ std_base64_syntax (Base64.Encode (list_byte_of_string "abcd")) = true.
Proof.
  exact (getRequestBody_decodes_encoded (Sample.post (list_byte_of_string "YWJjZA=="))
           (list_byte_of_string "abcd") eq_refl).
Defined.

(** ** Bodies that are taken as they are *)

(** A text of the syntax holds alphabet and padding characters only. *)
Lemma quads_chars (n : nat) : forall t : list byte,
  (length t <= n)%nat -> quads t = true ->
  Forall (fun c => alphabet c = true \/ is_pad c = true) t.
Proof.
  induction n as [| n IH]; intros t Hlen Hq.
  - destruct t; [ apply Forall_nil; exact I | cbn in Hlen; lia ].
  - destruct t as [| a [| b [| c [| d rest]]]]; try discriminate Hq;
      [ apply Forall_nil; exact I | ].
    cbn [quads] in Hq. apply andb_true_iff in Hq. destruct Hq as [Hab Hq].
    apply andb_true_iff in Hab. destruct Hab as [Ha Hb].
    apply orb_true_iff in Hq. destruct Hq as [Hq | Hq].
    + apply andb_true_iff in Hq. destruct Hq as [Hcd Hrest].
      apply andb_true_iff in Hcd. destruct Hcd as [Hc Hd].
      repeat (apply Forall_cons; split; [ left; assumption | ]).
      apply IH; [ cbn [length] in Hlen; lia | exact Hrest ].
    + destruct rest; [ | discriminate Hq ].
      apply andb_true_iff in Hq. destruct Hq as [Hc Hd].
      apply orb_true_iff in Hc.
      apply Forall_cons; split; [ left; assumption | ].
      apply Forall_cons; split; [ left; assumption | ].
      apply Forall_cons; split; [ exact Hc | ].
      apply Forall_cons; split; [ right; assumption | ].
      apply Forall_nil. exact I.
Qed.

(** X8.  A body holding a byte that is neither of the base64 alphabet, nor [=],
    nor a line break (the brace, quote, colon or blank of a JSON text) is
    never decoded: [getRequestBody] returns it as it was read. *)
Theorem getRequestBody_keeps_non_base64 (r : Request) (raw : list byte) (c : byte) :
  Body r = (raw, None) ->
  In c raw ->
  alphabet c = false -> is_pad c = false -> Base64.is_newline c = false ->
  getRequestBody r = (raw, None).
Proof.
  intros Hb Hin Ha Hp Hn.
  apply (getRequestBody_plain r raw Hb). intros Hnone.
  apply Base64Syntax.Decode_accepts in Hnone. unfold std_base64_syntax in Hnone.
  pose proof (quads_chars _ _ (Nat.le_refl _) Hnone) as Hall.
  rewrite Forall_forall in Hall.
  assert (Hmem : c ∈ filter (fun c0 => Base64.is_newline c0 = false) raw).
  { apply list_elem_of_filter. split; [ exact Hn | apply list_elem_of_In; exact Hin ]. }
  destruct (Hall c Hmem) as [Hx | Hx]; congruence.
Qed.

Lemma getRequestBody_keeps_non_base64_witness :
  getRequestBody (Sample.post [x7b; x22; x61; x22; x3a; x31; x7d])
  = ([x7b; x22; x61; x22; x3a; x31; x7d], None).
Proof.
  refine (getRequestBody_keeps_non_base64
            (Sample.post [x7b; x22; x61; x22; x3a; x31; x7d])
            [x7b; x22; x61; x22; x3a; x31; x7d] x7b eq_refl _ eq_refl eq_refl eq_refl).
  left. reflexivity.
Defined.

(** ** The project id *)

Lemma digit_of_is_digit (c : ascii) :
  textproto.is_digit c = true -> exists d, strconv.digit c = Some d /\ 0 <= d <= 9.
Proof.
  unfold textproto.is_digit, textproto.code, strconv.digit. intros Hc. rewrite Hc.
  apply andb_true_iff in Hc. destruct Hc as [Hlo Hhi].
  eexists. split; [ reflexivity | lia ].
Qed.

(** The digit loop on digits: the value read, or a range error. *)
Lemma parse_digits_digits (s : string) : forall n : Z,
  all_digits s = true -> 0 <= n ->
  (exists v, strconv.parse_digits s n = (v, None)
             /\ n * 10 ^ Z.of_nat (String.length s) <= v
                < (n + 1) * 10 ^ Z.of_nat (String.length s))
  \/ (strconv.parse_digits s n = (strconv.maxUint64, Some ErrRange)
      /\ 2 ^ 64 <= (n + 1) * 10 ^ Z.of_nat (String.length s)).
Proof.
  induction s as [| c s IH]; intros n Hs Hn.
  - left. exists n. cbn. split; [ reflexivity | lia ].
  - unfold all_digits in Hs. cbn [list_ascii_of_string forallb] in Hs.
    apply andb_true_iff in Hs. destruct Hs as [Hc Hs].
    destruct (digit_of_is_digit c Hc) as (d & Hd & Hrange).
    cbn [strconv.parse_digits String.length]. rewrite Hd.
    rewrite Nat2Z.inj_succ, Z.pow_succ_r by lia.
    assert (Hpow : 1 <= 10 ^ Z.of_nat (String.length s)) by (apply Z.pow_le_mono_r with (b := 0); lia).
    unfold strconv.maxUint64.
    change (2 ^ 64 - 1) with 18446744073709551615 in *.
    change ((18446744073709551615) / 10 + 1) with 1844674407370955162.
    change (2 ^ 64) with 18446744073709551616.
    destruct (Z.geb_spec n 1844674407370955162) as [Hcut | Hcut].
    { right. split; [ reflexivity | nia ]. }
    destruct (Z.gtb_spec (n * 10 + d) 18446744073709551615) as [Hover | Hover].
    { right. split; [ reflexivity | nia ]. }
    destruct (IH (n * 10 + d) Hs ltac:(lia)) as [(v & Hv & Hlo & Hhi) | [Herr Hbig]].
    + left. exists v. split; [ exact Hv | nia ].
    + right. split; [ exact Herr | ]. change (2 ^ 64) with 18446744073709551616 in Hbig. nia.
Qed.

Lemma parse_digits_bound (s : string) (n v : Z) :
  strconv.parse_digits s n = (v, None) -> 0 <= n <= strconv.maxUint64 ->
  0 <= v <= strconv.maxUint64.
Proof.
  revert n. induction s as [| c s IH]; intros n Hp Hn.
  - cbn in Hp. injection Hp as <-. exact Hn.
  - cbn [strconv.parse_digits] in Hp.
    destruct (strconv.digit c) as [d |] eqn:Hd; [ | discriminate ].
    destruct (n >=? _); [ discriminate | ].
    destruct (Z.gtb_spec (n * 10 + d) strconv.maxUint64); [ discriminate | ].
    apply (IH (n * 10 + d) Hp).
    unfold strconv.digit in Hd.
    destruct ((48 <=? _) && _) eqn:Hc; [ | discriminate ].
    injection Hd as <-. apply andb_true_iff in Hc. lia.
Qed.

(** X9.  A project id made of digits, as the route pattern [[0-9]+] demands:
    [Atoi] returns a value that is not negative and below 2^63; it fails
    only for a text of more than 18 digits, with a range error and the
    value 2^63-1, never with a syntax error. *)
Theorem Atoi_of_digits (s : string) :
  s <> EmptyString ->
  all_digits s = true ->
  match strconv.Atoi s with
  | (n, None) => 0 <= n < 2 ^ 63
  | (n, Some err) =>
      n = 2 ^ 63 - 1 /\ err = NumError "Atoi" s ErrRange /\ (18 < String.length s)%nat
  end.
Proof.
  intros Hne Hs. destruct s as [| c s]; [ congruence | ].
  pose proof Hs as Hs'. unfold all_digits in Hs'.
  cbn [list_ascii_of_string forallb] in Hs'.
  apply andb_true_iff in Hs'. destruct Hs' as [Hc _].
  assert (Hminus : Ascii.eqb c "-" = false).
  { destruct (Ascii.eqb_spec c "-") as [-> | _]; [ discriminate Hc | reflexivity ]. }
  assert (Hplus : Ascii.eqb c "+" = false).
  { destruct (Ascii.eqb_spec c "+") as [-> | _]; [ discriminate Hc | reflexivity ]. }
  unfold strconv.Atoi, strconv.ParseInt. rewrite Hminus, Hplus. cbn [orb negb andb].
  unfold strconv.ParseUint.
  destruct (parse_digits_digits (String c s) 0 Hs ltac:(lia))
    as [(v & Hv & Hlo & Hhi) | [Herr Hbig]].
  - rewrite Hv.
    pose proof (parse_digits_bound _ _ _ Hv ltac:(unfold strconv.maxUint64; lia)) as Hb.
    destruct (Z.geb_spec v (2 ^ 63)) as [Hge | Hlt].
    + split; [ reflexivity | split; [ reflexivity | ] ].
      destruct (Nat.le_gt_cases (String.length (String c s)) 18) as [Hshort | Hlong];
        [ | exact Hlong ].
      exfalso.
      assert (10 ^ Z.of_nat (String.length (String c s)) <= 10 ^ 18)
        by (apply Z.pow_le_mono_r; lia).
      change (10 ^ 18) with 1000000000000000000 in *.
      change (2 ^ 63) with 9223372036854775808 in *. lia.
    + lia.
  - rewrite Herr. cbn [negb andb]. change (strconv.maxUint64 >=? 2 ^ 63) with true.
    cbn iota. split; [ reflexivity | split; [ reflexivity | ] ].
    destruct (Nat.le_gt_cases (String.length (String c s)) 18) as [Hshort | Hlong];
      [ | exact Hlong ].
    exfalso.
    assert (10 ^ Z.of_nat (String.length (String c s)) <= 10 ^ 18)
      by (apply Z.pow_le_mono_r; lia).
    change (10 ^ 18) with 1000000000000000000 in *.
    change (2 ^ 64) with 18446744073709551616 in *. lia.
Qed.

Lemma Atoi_of_digits_witness :
  match strconv.Atoi "9223372036854775808" with
  | (n, None) => 0 <= n < 2 ^ 63
  | (n, Some err) =>
      n = 2 ^ 63 - 1 /\ err = NumError "Atoi" "9223372036854775808" ErrRange
      /\ (18 < String.length "9223372036854775808")%nat
  end.
Proof.
  refine (Atoi_of_digits "9223372036854775808" _ eq_refl). discriminate.
Defined.

(** ** Decimal texts *)

Lemma of_uint_acc_ge (d : Decimal.uint) : forall acc : positive,
  (acc <= Pos.of_uint_acc d acc)%positive.
Proof.
  induction d as [| d IH | d IH | d IH | d IH | d IH | d IH | d IH | d IH | d IH | d IH];
    intros acc; cbn [Pos.of_uint_acc]; [ lia | .. ];
    match goal with |- (_ <= Pos.of_uint_acc _ ?x)%positive => specialize (IH x) end; lia.
Qed.

(** The digit loop reads back what [string_of_uint] wrote, after any
    digits already read. *)
Lemma parse_digits_acc (d : Decimal.uint) : forall acc : positive,
  Z.pos (Pos.of_uint_acc d acc) <= strconv.maxUint64 ->
  strconv.parse_digits (NilEmpty.string_of_uint d) (Z.pos acc)
  = (Z.pos (Pos.of_uint_acc d acc), None).
Proof.
  unfold strconv.maxUint64. change (2 ^ 64 - 1) with 18446744073709551615.
  induction d as [| d IH | d IH | d IH | d IH | d IH | d IH | d IH | d IH | d IH | d IH];
    intros acc Hmax; cbn [Pos.of_uint_acc NilEmpty.string_of_uint] in *;
    [ reflexivity | .. ];
    match type of Hmax with
    | (Z.pos (Pos.of_uint_acc _ ?x) <= _) =>
        pose proof (of_uint_acc_ge d x) as Hge; specialize (IH x Hmax)
    end;
    cbn [strconv.parse_digits];
    match goal with
    | |- context [strconv.digit ?c] =>
        let v := eval vm_compute in (strconv.digit c) in
        change (strconv.digit c) with v
    end;
    cbv iota beta;
    unfold strconv.maxUint64; change (2 ^ 64 - 1) with 18446744073709551615;
    change (18446744073709551615 / 10 + 1) with 1844674407370955162;
    (destruct (Z.geb_spec (Z.pos acc) 1844674407370955162) as [Hcut | Hcut]; [ lia | ]);
    match goal with
    | |- context [?n1 >? 18446744073709551615] =>
        destruct (Z.gtb_spec n1 18446744073709551615) as [Hover | Hover]; [ lia | ]
    end;
    rewrite <- IH; f_equal; lia.
Qed.

Lemma parse_digits_of_uint (d : Decimal.uint) :
  Z.of_N (Pos.of_uint d) <= strconv.maxUint64 ->
  strconv.parse_digits (NilEmpty.string_of_uint d) 0 = (Z.of_N (Pos.of_uint d), None).
Proof.
  induction d as [| d IH | d IH | d IH | d IH | d IH | d IH | d IH | d IH | d IH | d IH];
    intros Hmax; cbn [Pos.of_uint NilEmpty.string_of_uint] in *;
    [ reflexivity | rewrite <- (IH Hmax); reflexivity | .. ];
    cbn [strconv.parse_digits];
    match goal with
    | |- context [strconv.digit ?c] =>
        let v := eval vm_compute in (strconv.digit c) in
        change (strconv.digit c) with v
    end;
    cbv iota beta;
    change (0 >=? strconv.maxUint64 / 10 + 1) with false; cbv iota;
    match goal with
    | |- context [?n1 >? strconv.maxUint64] =>
        change (n1 >? strconv.maxUint64) with false
    end;
    cbv iota;
    match goal with
    | |- strconv.parse_digits _ ?k = _ =>
        let p := eval vm_compute in k in change k with p
    end;
    apply parse_digits_acc; exact Hmax.
Qed.

Lemma string_of_uint_digits (d : Decimal.uint) :
  d <> Decimal.Nil ->
  NilZero.string_of_uint d = NilEmpty.string_of_uint d
  /\ exists c s, NilEmpty.string_of_uint d = String c s
                 /\ Ascii.eqb c "-" = false /\ Ascii.eqb c "+" = false.
Proof.
  intros Hd. destruct d; [ congruence | .. ];
    (split; [ reflexivity | eexists; eexists; split; [ reflexivity | split; reflexivity ] ]).
Qed.

(** X10.  What [FormatInt] writes, [Atoi] reads back: the count in the response
    header is the count, for every 64-bit value. *)
Theorem Atoi_FormatInt (n : Z) :
  - 2 ^ 63 <= n < 2 ^ 63 ->
  strconv.Atoi (strconv.FormatInt n) = (n, None).
Proof.
  intros Hn. unfold strconv.FormatInt. destruct n as [| p | p]; [ reflexivity | | ].
  - cbn [Z.to_int NilZero.string_of_int].
    destruct (string_of_uint_digits (Pos.to_uint p) (Unsigned.to_uint_nonnil p))
      as (Hs & c & s & Hcs & Hminus & Hplus).
    pose proof (parse_digits_of_uint (Pos.to_uint p)) as Hp.
    rewrite DecimalPos.Unsigned.of_to in Hp.
    specialize (Hp ltac:(unfold strconv.maxUint64; cbn [Z.of_N]; lia)).
    rewrite Hs. unfold strconv.Atoi, strconv.ParseInt, strconv.ParseUint.
    rewrite Hcs in Hp |- *. rewrite Hminus, Hplus. cbn [orb]. rewrite Hp.
    cbn [Z.of_N negb andb].
    destruct (Z.geb_spec (Z.pos p) (2 ^ 63)) as [Hge | _]; [ lia | reflexivity ].
  - cbn [Z.to_int NilZero.string_of_int].
    destruct (string_of_uint_digits (Pos.to_uint p) (Unsigned.to_uint_nonnil p))
      as (Hs & c & s & Hcs & Hminus & Hplus).
    pose proof (parse_digits_of_uint (Pos.to_uint p)) as Hp.
    rewrite DecimalPos.Unsigned.of_to in Hp.
    specialize (Hp ltac:(unfold strconv.maxUint64; cbn [Z.of_N]; lia)).
    rewrite Hs. unfold strconv.Atoi, strconv.ParseInt, strconv.ParseUint.
    change (Ascii.eqb "-" "-") with true. change (Ascii.eqb "-" "+") with false.
    cbn [orb]. rewrite Hcs in Hp |- *. rewrite Hp.
    cbn [Z.of_N negb andb].
    destruct (Z.gtb_spec (Z.pos p) (2 ^ 63)) as [Hgt | _]; [ lia | reflexivity ].
Qed.

Lemma Atoi_FormatInt_witness :
  strconv.Atoi (strconv.FormatInt (-9223372036854775808)) = (-9223372036854775808, None).
Proof.
  refine (Atoi_FormatInt (-9223372036854775808) _).
  vm_compute. split; discriminate || reflexivity.
Defined.

(** ** The window of a key *)

(** X11.  A repeat inside the window counts one more and leaves the deadline
    where the first occurrence put it: [validateCache] arms the TTL only
    when it read the count 0. *)
Theorem repeat_keeps_deadline
    (HashForGrouping : list byte -> string * option error)
    (ParseList : Header -> string -> list string)
    (a : Api MemCache.Store) (r : Request) (projectId : Z) (body : list byte)
    (t k deadline : Z) :
  validated ParseList a r projectId ->
  getRequestBody r = (body, None) ->
  0 < UrlCacheExpiration (cfg a) ->
  counted (cacheKey (Vars r) (fst (HashForGrouping body))) a k deadline ->
  t < deadline ->
  0 <= k < 2 ^ 63 - 1 ->
  let '(w, a') := submit_at HashForGrouping ParseList a r t in
  cache_count w = Some [strconv.FormatInt (k + 1)]
  /\ status_tag w = tag_of (k + 1) (int64 (MaxCacheUses (cfg a)))
  /\ counted (cacheKey (Vars r) (fst (HashForGrouping body))) a' (k + 1) deadline.
Proof.
  intros Hval Hbody Httl Hcnt Ht Hk.
  pose proof (submit_at_live HashForGrouping ParseList r projectId body Hbody a t k deadline
                Hval Httl Hcnt Ht Hk) as Hs.
  cbn zeta in Hs.
  assert (Hcount : cache_count (fst (submit_at HashForGrouping ParseList a r t))
                   = Some [strconv.FormatInt (k + 1)]).
  { unfold submit_at.
    set (a0 := set_cache a (MemCache.at_time t (cache a))).
    assert (Hval0 : validated ParseList a0 r projectId) by exact Hval.
    pose proof (apiHandler_decides HashForGrouping ParseList a0 r projectId body Hval0 Hbody)
      as Hd.
    cbn zeta in Hd.
    destruct Hcnt as [Hup Hent].
    assert (Hcur : MemCache.current (cache a0) (cacheKey (Vars r) (fst (HashForGrouping body)))
                   = Some {| MemCache.count := k; MemCache.expiresAt := Some deadline |}).
    { apply ConcurrentFacts.current_live; [ exact Hent | exact Ht ]. }
    rewrite (validateCache_live a0 _ _ Hup Hcur Httl) in Hd.
    cbn [fst snd MemCache.count] in Hd. rewrite (int64_small (k + 1)) in Hd by lia.
    destruct (apiHandler HashForGrouping ParseList a0 newResponseWriter r) as [[w a'] lg].
    cbn [fst]. destruct Hd as [_ Hd].
    destruct (_ >? _); destruct Hd as (_ & Hc & _); exact Hc. }
  destruct (submit_at HashForGrouping ParseList a r t) as [w a']. cbn [fst] in Hcount.
  destruct Hs as (Htag & _ & _ & _ & Hcnt').
  split; [ exact Hcount | split; [ exact Htag | exact Hcnt' ] ].
Qed.

Lemma repeat_keeps_deadline_witness :
  let a0 := Sample.api 3 60 MemCache.empty in
  let r := Sample.post (list_byte_of_string "{}") in
  let a := snd (submit_at Sample.hash_id header.ParseList a0 r 5) in
  let '(w, a') := submit_at Sample.hash_id header.ParseList a r 40000000000 in
  cache_count w = Some [strconv.FormatInt (1 + 1)]
  /\ status_tag w = tag_of (1 + 1) (int64 (MaxCacheUses (cfg a)))
  /\ counted (cacheKey (Vars r) (fst (Sample.hash_id (list_byte_of_string "{}")))) a' (1 + 1)
       60000000005.
Proof.
  refine (repeat_keeps_deadline Sample.hash_id header.ParseList
            (snd (submit_at Sample.hash_id header.ParseList
                    (Sample.api 3 60 MemCache.empty)
                    (Sample.post (list_byte_of_string "{}")) 5))
            (Sample.post (list_byte_of_string "{}")) 1 (list_byte_of_string "{}")
            40000000000 1 60000000005 _ eq_refl eq_refl _ eq_refl _).
  - split; vm_compute; reflexivity.
  - split; vm_compute; reflexivity.
  - vm_compute. split; [ discriminate | reflexivity ].
Defined.

(** X12.  A repeat at or after the deadline counts 1 again and opens a new
    window from its own instant. *)
Theorem repeat_after_deadline_restarts
    (HashForGrouping : list byte -> string * option error)
    (ParseList : Header -> string -> list string)
    (a : Api MemCache.Store) (r : Request) (projectId : Z) (body : list byte)
    (t k deadline : Z) :
  validated ParseList a r projectId ->
  getRequestBody r = (body, None) ->
  0 < UrlCacheExpiration (cfg a) ->
  0 < window (cfg a) ->
  counted (cacheKey (Vars r) (fst (HashForGrouping body))) a k deadline ->
  deadline <= t ->
  let '(w, a') := submit_at HashForGrouping ParseList a r t in
  status_tag w = tag_of 1 (int64 (MaxCacheUses (cfg a)))
  /\ counted (cacheKey (Vars r) (fst (HashForGrouping body))) a' 1 (t + window (cfg a)).
Proof.
  intros Hval Hbody Httl Hwin [Hup Hent] Ht.
  assert (Hcur : MemCache.current (MemCache.at_time t (cache a))
                   (cacheKey (Vars r) (fst (HashForGrouping body))) = None).
  { unfold MemCache.current, MemCache.live. cbn. rewrite Hent. cbn.
    destruct (Z.ltb_spec t deadline); [ lia | reflexivity ]. }
  pose proof (submit_at_fresh HashForGrouping ParseList r projectId body Hbody a t
                Hval Httl Hwin Hup Hcur) as Hs.
  cbn zeta in Hs.
  destruct (submit_at HashForGrouping ParseList a r t) as [w a'].
  destruct Hs as (Htag & _ & _ & _ & Hcnt'). split; assumption.
Qed.

Lemma repeat_after_deadline_restarts_witness :
  let a0 := Sample.api 3 60 MemCache.empty in
  let r := Sample.post (list_byte_of_string "{}") in
  let a := snd (submit_at Sample.hash_id header.ParseList a0 r 5) in
  let '(w, a') := submit_at Sample.hash_id header.ParseList a r 60000000005 in
  status_tag w = tag_of 1 (int64 (MaxCacheUses (cfg a)))
  /\ counted (cacheKey (Vars r) (fst (Sample.hash_id (list_byte_of_string "{}")))) a' 1
       (60000000005 + window (cfg a)).
Proof.
  refine (repeat_after_deadline_restarts Sample.hash_id header.ParseList
            (snd (submit_at Sample.hash_id header.ParseList
                    (Sample.api 3 60 MemCache.empty)
                    (Sample.post (list_byte_of_string "{}")) 5))
            (Sample.post (list_byte_of_string "{}")) 1 (list_byte_of_string "{}")
            60000000005 1 60000000005 _ eq_refl eq_refl eq_refl _ _).
  - split; vm_compute; reflexivity.
  - split; vm_compute; reflexivity.
  - vm_compute. discriminate.
Defined.

(** ** Authentication: the value after the first [=] *)

Lemma last_field_app (field v : string) (l : list string) :
  last_field field (l ++ [v])
  = match field_value field v with
    | Some y => Some y
    | None => last_field field l
    end.
Proof.
  induction l as [| x l IH].
  - cbn [app]. rewrite last_field_cons.
    change (last_field field []) with (@None string).
    destruct (field_value field v); reflexivity.
  - cbn [app]. rewrite !last_field_cons, IH.
    destruct (field_value field v); reflexivity.
Qed.

Lemma prefix_single (a c : ascii) (s : string) :
  String.prefix (String a EmptyString) (String c s)
  = if ascii_dec a c then true else false.
Proof. cbn. destruct (ascii_dec a c); [ destruct s; reflexivity | reflexivity ]. Qed.

(** [cut] splits at the first separator: a field without [=], then [=],
    then any value. *)
Lemma cut_first_equals (f v : string) :
  strings.Contains f "=" = false ->
  strings.cut (f +:+ "=" +:+ v) "=" = Some (f, v).
Proof.
  induction f as [| c f IH]; intros Hf.
  - change (EmptyString +:+ "=" +:+ v) with (String "="%char v).
    cbn [strings.cut]. rewrite prefix_single.
    destruct (ascii_dec "=" "=") as [_ | Hne]; [ reflexivity | congruence ].
  - change (String c f +:+ "=" +:+ v) with (String c (f +:+ "=" +:+ v)).
    cbn [strings.Contains] in Hf. apply orb_false_iff in Hf. destruct Hf as [Hc Hf].
    rewrite prefix_single in Hc.
    cbn [strings.cut]. rewrite prefix_single.
    destruct (ascii_dec "=" c) as [Heq | Hne]; [ discriminate Hc | ].
    rewrite (IH Hf). reflexivity.
Qed.

(** X13.  The element [sentry_key=v] at the end of the header list sets the key
    to everything after the first [=], further [=] included, whatever the
    query parameter and the earlier elements say. *)
Theorem header_key_cut_at_first_equals
    (ParseList : Header -> string -> list string) (r : Request)
    (l : list string) (v : string) :
  ParseList (Req_Header r) "X-Sentry-Auth" = l ++ ["sentry_key=" +:+ v] ->
  sentry_key (getSentryKeyAndSecret ParseList r) = v.
Proof.
  intros Hl. unfold getSentryKeyAndSecret. rewrite Hl, foldl_auth_field.
  cbn [sentry_key]. rewrite last_field_app.
  unfold field_value at 1.
  change ("sentry_key=" +:+ v) with ("sentry_key" +:+ "=" +:+ v).
  rewrite (cut_first_equals "sentry_key" v eq_refl). reflexivity.
Qed.

Lemma header_key_cut_at_first_equals_witness :
  sentry_key
    (getSentryKeyAndSecret header.ParseList
       (Sample.request Sample.query_k1
          {[ "X-Sentry-Auth" := ["Sentry sentry_version=7, sentry_key=a=b"] ]} ([], None)))
  = "a=b"%string.
Proof.
  exact (header_key_cut_at_first_equals header.ParseList
           (Sample.request Sample.query_k1
              {[ "X-Sentry-Auth" := ["Sentry sentry_version=7, sentry_key=a=b"] ]} ([], None))
           ["Sentry sentry_version=7"%string] "a=b" eq_refl).
Defined.

(** ** Concurrent callers: every moment, and the admissions *)

(** X14.  At every moment of an execution of K concurrent callers, not only at
    its end: the counts returned so far are 1, 2, ..., n in some order, n
    being the number of callers that returned, and a [Get] at that moment
    would read n. *)
Theorem concurrent_counts_at_every_moment (cfg : Config) (url : string) (K : nat)
    (s0 s : MemCache.Store) (ps : list Concurrent.pc) :
  0 < UrlCacheExpiration cfg ->
  0 < window cfg ->
  Z.of_nat K < 2 ^ 63 ->
  MemCache.reachable s0 = true ->
  MemCache.current s0 url = None ->
  rtc (Concurrent.step cfg url (MemCache.clock s0 + window cfg))
      (replicate K Concurrent.AtGet, s0) (ps, s) ->
  let counts := omap Concurrent.returned ps in
  counts ≡ₚ map Z.of_nat (seq 1 (length counts))
  /\ fst (MemCache.get url s) = (Z.of_nat (length counts), None)
  /\ length ps = K.
Proof.
  intros Httl Hwin HK Hup Hcur Hrun. cbn zeta.
  assert (Hinit : Concurrent.invariant cfg url K s0 (replicate K Concurrent.AtGet, s0)).
  { split; [ apply length_replicate | split; [ exact Hup | split; [ lia | left ] ] ].
    split; [ exact Hcur | ].
    apply Forall_replicate. left. reflexivity. }
  pose proof (ConcurrentFacts.invariant_rtc cfg url K s0 Httl HK _ _ Hrun Hinit) as Hinv.
  destruct Hinv as (Hlen & Hup' & Hclock & Hcases).
  unfold MemCache.get. rewrite Hup'.
  destruct Hcases as [[Hcur' Hpend] | (d & Hd & Hent & Hperm)].
  - rewrite (ConcurrentFacts.omap_returned_pending ps Hpend), Hcur'.
    split; [ reflexivity | split; [ reflexivity | exact Hlen ] ].
  - rewrite (ConcurrentFacts.current_live s url _ d Hent ltac:(lia)).
    split; [ exact Hperm | split; [ reflexivity | exact Hlen ] ].
Qed.

Lemma concurrent_counts_at_every_moment_witness :
  let counts := omap Concurrent.returned [Concurrent.AtIncr; Concurrent.Returned 1] in
  counts ≡ₚ map Z.of_nat (seq 1 (length counts))
  /\ fst (MemCache.get "1{}"
            (snd (Concurrent.run_caller (Sample.config 1 60) "1{}" 3 Concurrent.AtGet
                    MemCache.empty)))
     = (Z.of_nat (length counts), None)
  /\ length [Concurrent.AtIncr; Concurrent.Returned 1] = 2%nat.
Proof.
  refine (concurrent_counts_at_every_moment (Sample.config 1 60) "1{}" 2 MemCache.empty _
            [Concurrent.AtIncr; Concurrent.Returned 1]
            eq_refl eq_refl eq_refl eq_refl eq_refl _).
  eapply rtc_l; [ apply (Concurrent.step_caller _ _ _ 0%nat) with (p := Concurrent.AtGet);
                  reflexivity | ].
  eapply rtc_l; [ apply (Concurrent.step_caller _ _ _ 1%nat) with (p := Concurrent.AtGet);
                  reflexivity | ].
  eapply rtc_l; [ apply (Concurrent.step_caller _ _ _ 1%nat) with (p := Concurrent.AtSet);
                  reflexivity | ].
  eapply rtc_l; [ apply (Concurrent.step_caller _ _ _ 0%nat) with (p := Concurrent.AtSet);
                  reflexivity | ].
  eapply rtc_l; [ apply (Concurrent.step_caller _ _ _ 1%nat) with (p := Concurrent.AtIncr);
                  reflexivity | ].
  apply rtc_refl.
Defined.

Lemma admitted_up_to (K : nat) (T : Z) :
  length (filter (fun count => (count >? T) = false) (map Z.of_nat (seq 1 K)))
  = Nat.min K (Z.to_nat T).
Proof.
  induction K as [| K IH]; [ reflexivity | ].
  rewrite seq_S, map_app, filter_app, length_app, IH. cbn [map].
  destruct (Z.of_nat (1 + K) >? T) eqn:Hcmp.
  - rewrite filter_cons_False by (rewrite Hcmp; discriminate).
    rewrite filter_nil. cbn [length].
    rewrite Z.gtb_ltb in Hcmp. apply Z.ltb_lt in Hcmp. lia.
  - rewrite filter_cons_True by exact Hcmp.
    rewrite filter_nil. cbn [length].
    rewrite Z.gtb_ltb in Hcmp. apply Z.ltb_ge in Hcmp. lia.
Qed.

(** X15.  Of K concurrent submissions of one event in one window, the handler's
    test [count > threshold] lets exactly min(K, T) through, whatever the
    interleaving. *)
Theorem concurrent_admissions (cfg : Config) (url : string) (K : nat)
    (s0 s : MemCache.Store) (ps : list Concurrent.pc) :
  0 < UrlCacheExpiration cfg ->
  0 < window cfg ->
  Z.of_nat K < 2 ^ 63 ->
  MemCache.reachable s0 = true ->
  MemCache.current s0 url = None ->
  rtc (Concurrent.step cfg url (MemCache.clock s0 + window cfg))
      (replicate K Concurrent.AtGet, s0) (ps, s) ->
  Forall (fun p => is_Some (Concurrent.returned p)) ps ->
  length (filter (fun count => (count >? int64 (MaxCacheUses cfg)) = false)
            (omap Concurrent.returned ps))
  = Nat.min K (Z.to_nat (int64 (MaxCacheUses cfg))).
Proof.
  intros Httl Hwin HK Hup Hcur Hrun Hdone.
  assert (Hinit : Concurrent.invariant cfg url K s0 (replicate K Concurrent.AtGet, s0)).
  { split; [ apply length_replicate | split; [ exact Hup | split; [ lia | left ] ] ].
    split; [ exact Hcur | ].
    apply Forall_replicate. left. reflexivity. }
  pose proof (ConcurrentFacts.invariant_rtc cfg url K s0 Httl HK _ _ Hrun Hinit) as Hinv.
  destruct Hinv as (Hlen & _ & _ & Hcases).
  pose proof (all_returned_length ps Hdone) as Hall.
  assert (Hperm : omap Concurrent.returned ps ≡ₚ map Z.of_nat (seq 1 K)).
  { destruct Hcases as [[_ Hpend] | (d & _ & _ & Hperm)].
    - rewrite (ConcurrentFacts.omap_returned_pending ps Hpend) in Hall |- *.
      cbn [length] in Hall. rewrite <- Hlen, <- Hall. reflexivity.
    - rewrite Hall, Hlen in Hperm. exact Hperm. }
  rewrite Hperm. apply admitted_up_to.
Qed.

Lemma concurrent_admissions_witness :
  length (filter (fun count => (count >? int64 (MaxCacheUses (Sample.config 1 60))) = false)
            (omap Concurrent.returned [Concurrent.Returned 2; Concurrent.Returned 1]))
  = Nat.min 2 (Z.to_nat (int64 (MaxCacheUses (Sample.config 1 60)))).
Proof.
  refine (concurrent_admissions (Sample.config 1 60) "1{}" 2 MemCache.empty _
            [Concurrent.Returned 2; Concurrent.Returned 1]
            eq_refl eq_refl eq_refl eq_refl eq_refl _ _).
  - eapply rtc_l; [ apply (Concurrent.step_caller _ _ _ 0%nat) with (p := Concurrent.AtGet);
                    reflexivity | ].
    eapply rtc_l; [ apply (Concurrent.step_caller _ _ _ 1%nat) with (p := Concurrent.AtGet);
                    reflexivity | ].
    eapply rtc_l; [ apply (Concurrent.step_caller _ _ _ 0%nat) with (p := Concurrent.AtSet);
                    reflexivity | ].
    eapply rtc_l; [ apply (Concurrent.step_caller _ _ _ 1%nat) with (p := Concurrent.AtSet);
                    reflexivity | ].
    eapply rtc_l; [ apply (Concurrent.step_caller _ _ _ 1%nat) with (p := Concurrent.AtIncr);
                    reflexivity | ].
    eapply rtc_l; [ apply (Concurrent.step_caller _ _ _ 0%nat) with (p := Concurrent.AtIncr);
                    reflexivity | ].
    apply rtc_refl.
  - repeat constructor; eexists; reflexivity.
Defined.
